(** * Exotic option pricing by Monte Carlo: the notebook's cells over the reals

    The notebook [Exotic Options/Exotic Options.ipynb] simulates a batch of
    geometric Brownian motion price paths with numpy and reduces the path
    matrix to option prices, cell by cell.  Each code cell is embedded here
    as a function of the values it reads:

    - numpy's [float64] arrays are lists (vectors) and lists of rows
      (matrices) of real numbers of the Standard Library; arithmetic is exact,
      so rounding is outside the model; where overflow or underflow changes
      what a cell returns, module [B64] follows the cell on binary64 values;
    - the global parameters of the first code cell are the fields of
      [SimulationParameters];
    - [np.random.normal] is a draw source [nat -> nat -> R] giving the variate
      of simulation [i] at step [k];
    - a Python exception is a value [Err e] of the error monad [result]. *)

From Stdlib Require Import Floats Uint63.
From Stdlib Require Import Reals Lra Lia List ZArith Bool Arith Sorted
  Permutation.
Import ListNotations.

Local Open Scope R_scope.

(** ** Exceptions *)

Inductive PyError : Type :=
| ZeroDivisionError
| ValueError
| IndexError.

Inductive result (A : Type) : Type :=
| Ok (a : A)
| Err (e : PyError).

Arguments Ok {A} a.
Arguments Err {A} e.

Definition bind {A B : Type} (c : result A) (k : A -> result B) : result B :=
  match c with
  | Ok a => k a
  | Err e => Err e
  end.

Notation "x <- c ;; k" := (bind c (fun x => k))
  (at level 61, c at next level, right associativity).

(** Arrays of one and two dimensions. *)
Abbreviation vector := (list R) (only parsing).
Abbreviation matrix := (list (list R)) (only parsing).

(** ** The numpy operations the cells use *)

Module Np.

(** [np.sum(a)]: also the accumulation [s = 0; for x in a: s += x]. *)
Definition sum (a : vector) : R := fold_left Rplus a 0.

(** [np.prod(a)]; the product of no element is 1. *)
Definition prod (a : vector) : R := fold_left Rmult a 1.

(** [np.mean(a)]: the sum over the number of elements. *)
Definition mean (a : vector) : R := sum a / INR (length a).

(** [np.cumprod(a)]: [out[0] = a[0]], [out[j] = out[j-1] * a[j]]. *)
Fixpoint cumprod_from (acc : R) (a : vector) : vector :=
  match a with
  | [] => []
  | x :: xs => (acc * x) :: cumprod_from (acc * x) xs
  end.

Definition cumprod (a : vector) : vector :=
  match a with
  | [] => []
  | x :: xs => x :: cumprod_from x xs
  end.

(** [np.amax(a)]: numpy raises [ValueError] on a zero-size array. *)
Definition amax (a : vector) : result R :=
  match a with
  | [] => Err ValueError
  | x :: xs => Ok (fold_left Rmax xs x)
  end.

(** [np.maximum(0, a)], elementwise. *)
Definition maximum0 (a : vector) : vector := map (Rmax 0) a.

(** The test [x != 0]. *)
Definition nonzero (x : R) : bool :=
  if Req_dec_T x 0 then false else true.

(** [np.count_nonzero(a)]. *)
Definition count_nonzero (a : vector) : nat := length (filter nonzero a).

(** [a[-1]]: Python raises [IndexError] on an empty row. *)
Definition last (a : vector) : result R :=
  match a with
  | [] => Err IndexError
  | _ :: _ => Ok (List.last a 0)
  end.

(** [a[i]] for [0 <= i]. *)
Definition get {A : Type} (a : list A) (i : nat) : result A :=
  match nth_error a i with
  | Some x => Ok x
  | None => Err IndexError
  end.

(** [np.random.normal(size=(n, m))]: an [n] by [m] matrix of draws, and a
    [ValueError] when a dimension is negative. *)
Definition normal (draw : nat -> nat -> R) (n m : Z) : result matrix :=
  if ((n <? 0) || (m <? 0))%Z then Err ValueError
  else Ok (map (fun i => map (draw i) (seq 0 (Z.to_nat m)))
               (seq 0 (Z.to_nat n))).

End Np.

(** Python's [a / b] on scalars, with [b] an [int]. *)
Definition py_div (a : R) (b : Z) : result R :=
  if (b =? 0)%Z then Err ZeroDivisionError else Ok (a / IZR b).

(** ** Parameters: the globals of the first code cell *)

Record SimulationParameters : Type := {
  spot_price : R;
  strike_price : R;
  Time : R;
  risk_free_rate : R;
  sigma : R;
  simulations : Z;
  Time_steps : Z
}.

(** ** Path simulation *)

(** One entry of [ratio_matrix]: the ratio of a price to the price one step
    earlier, for the draw [z].  (For a negative [dt] numpy's [sqrt] is nan
    where the square root of the reals is 0; the statements about values
    below take [Time > 0] and [Time_steps >= 1].) *)
Definition ratio (p : SimulationParameters) (dt z : R) : R :=
  exp ((risk_free_rate p - sigma p * sigma p / 2) * dt
       + sigma p * z * sqrt dt).

Definition ratio_matrix (p : SimulationParameters) (dt : R) (random : matrix)
  : matrix :=
  map (map (ratio p dt)) random.

(** [prices = spot_price * np.cumprod(ratio_matrix, axis=1)], after
    [dt = Time / Time_steps] and the draws. *)
Definition prices (p : SimulationParameters) (draw : nat -> nat -> R)
  : result matrix :=
  dt <- py_div (Time p) (Time_steps p) ;;
  random <- Np.normal draw (simulations p) (Time_steps p) ;;
  Ok (map (fun row => map (Rmult (spot_price p)) (Np.cumprod row))
          (ratio_matrix p dt random)).

(** Entry [(i, j)] of a matrix; 0 outside it. *)
Definition entry (m : matrix) (i j : nat) : R := nth j (nth i m []) 0.

(** The product [f 0 * f 1 * ... * f j]. *)
Fixpoint prod_upto (f : nat -> R) (j : nat) : R :=
  match j with
  | O => f O
  | S j' => prod_upto f j' * f j
  end.

(** The parameter sets the simulator is meant for. *)
Definition valid_parameters (p : SimulationParameters) : Prop :=
  0 < spot_price p /\ 0 < strike_price p /\ 0 < Time p /\ 0 <= sigma p /\
  (1 <= simulations p)%Z /\ (1 <= Time_steps p)%Z.

(** The running price of simulation [i]: the spot price, multiplied at each
    step by that step's ratio. *)
Fixpoint price_after (p : SimulationParameters) (draw : nat -> nat -> R)
  (i n : nat) : R :=
  match n with
  | O => spot_price p
  | S n' =>
      price_after p draw i n'
      * exp ((risk_free_rate p - (sigma p)^2 / 2) * (Time p / IZR (Time_steps p))
             + sigma p * sqrt (Time p / IZR (Time_steps p)) * draw i n')
  end.

(** What [prices] returns when no exception is raised. *)
Definition path_matrix (p : SimulationParameters) (draw : nat -> nat -> R)
  : matrix :=
  map (fun row => map (Rmult (spot_price p)) (Np.cumprod row))
      (ratio_matrix p (Time p / IZR (Time_steps p))
         (map (fun i => map (draw i) (seq 0 (Z.to_nat (Time_steps p))))
              (seq 0 (Z.to_nat (simulations p))))).

(** An [n] by [m] matrix. *)
Definition shape (n m : nat) (a : matrix) : Prop :=
  length a = n /\ Forall (fun row => length row = m) a.

(** [np.exp(-risk_free_rate*Time)] *)
Definition discount (p : SimulationParameters) : R :=
  exp (- risk_free_rate p * Time p).

(** A row reduction that can raise, applied to every row in turn. *)
Fixpoint mapM {A B : Type} (f : A -> result B) (l : list A) : result (list B) :=
  match l with
  | [] => Ok []
  | x :: xs => y <- f x ;; ys <- mapM f xs ;; Ok (y :: ys)
  end.

(** [s = acc; for i in rows: s += a[i][-1]] *)
Fixpoint sum_last (a : matrix) (rows : list nat) (acc : R) : result R :=
  match rows with
  | [] => Ok acc
  | i :: rest =>
      row <- Np.get a i ;;
      x <- Np.last row ;;
      sum_last a rest (acc + x)
  end.

(** Comparisons of array elements with a scalar. *)
Definition Rltb (x y : R) : bool := if Rlt_dec x y then true else false.
Definition Rleb (x y : R) : bool := if Rle_dec x y then true else false.

(** ** Asian option: payoffs, price, variance and standard error *)

Module Asian.

(** [payoffs = np.maximum(0, np.mean(prices, axis=1) - strike_price)] *)
Definition payoffs (p : SimulationParameters) (prices : matrix) : vector :=
  Np.maximum0 (map (fun row => Np.mean row - strike_price p) prices).

(** [Asian_Option_call_price = np.mean(payoffs)*np.exp(-risk_free_rate*Time)] *)
Definition Asian_Option_call_price (p : SimulationParameters)
  (payoffs : vector) : R :=
  Np.mean payoffs * discount p.

(** [var_matrix = np.power((payoffs - Asian_Option_call_price),2)] *)
Definition var_matrix (p : SimulationParameters) (payoffs : vector) : vector :=
  map (fun x => (x - Asian_Option_call_price p payoffs) ^ 2) payoffs.

(** [variance = np.sum(var_matrix)/(simulations-1)] *)
Definition variance (p : SimulationParameters) (payoffs : vector) : R :=
  Np.sum (var_matrix p payoffs) / IZR (simulations p - 1).

(** [standard_error = np.sqrt(variance/simulations)] *)
Definition standard_error (p : SimulationParameters) (payoffs : vector) : R :=
  sqrt (variance p payoffs / IZR (simulations p)).

End Asian.

(** ** Lookback options *)

Module Lookback.

(** [payoffs = np.maximum(0,np.amax(prices - strike_price, axis=1))] *)
Definition payoffs (p : SimulationParameters) (prices : matrix)
  : result vector :=
  m <- mapM (fun row => Np.amax (map (fun x => x - strike_price p) row)) prices ;;
  Ok (Np.maximum0 m).

(** [payoffs = np.maximum(0,np.amax(strike_price - prices, axis=1))] *)
Definition payoffs_put (p : SimulationParameters) (prices : matrix)
  : result vector :=
  m <- mapM (fun row => Np.amax (map (fun x => strike_price p - x) row)) prices ;;
  Ok (Np.maximum0 m).

(** [Average_Max_Price = np.sum(payoffs)/simulations], discounted. *)
Definition lookbackpayoffofcall (p : SimulationParameters) (prices : matrix)
  : result R :=
  v <- payoffs p prices ;;
  Ok (Np.sum v / IZR (simulations p) * discount p).

Definition lookbackpayoffofput (p : SimulationParameters) (prices : matrix)
  : result R :=
  v <- payoffs_put p prices ;;
  Ok (Np.sum v / IZR (simulations p) * discount p).

End Lookback.

(** ** Barrier option *)

Module Barrier.

(** [payoffs = np.maximum(0, prices - Barrier_price)], a matrix. *)
Definition payoffs (Barrier_price : R) (prices : matrix) : matrix :=
  map (fun row => Np.maximum0 (map (fun x => x - Barrier_price) row)) prices.

(** [Barrier_rows = np.where(np.prod(payoffs, axis=1)!=0)[0]]: the indices of
    the rows whose product is not zero, in increasing order.  (Over the reals
    a product is zero exactly when a factor is; [B64.Barrier_rows] is the
    same test on binary64 values, where the product can underflow to 0 or
    overflow to nan.) *)
Definition Barrier_rows (payoffs : matrix) : list nat :=
  filter (fun i => Np.nonzero (Np.prod (nth i payoffs [])))
         (seq 0 (length payoffs)).

(** The loop [for i in Barrier_rows: Barrier_total += payoffs[i][-1]]. *)
Definition Barrier_total (payoffs : matrix) : result R :=
  sum_last payoffs (Barrier_rows payoffs) 0.

(** [Barrier_total/simulations*np.exp(-risk_free_rate*Time)].  When no row
    survives, [Barrier_total] is still the Python integer 0 and the division
    is Python's; otherwise it is a numpy scalar. *)
Definition Barrier_option_price (p : SimulationParameters)
  (Barrier_price : R) (prices : matrix) : result R :=
  let payoffs := payoffs Barrier_price prices in
  total <- Barrier_total payoffs ;;
  q <- match Barrier_rows payoffs with
       | [] => py_div total (simulations p)
       | _ :: _ => Ok (total / IZR (simulations p))
       end ;;
  Ok (q * discount p).

End Barrier.

(** ** Basket option: half Asian, half barrier *)

Definition Basket_Option_price (Asian_Option_call_price
  Barrier_option_price : R) : R :=
  5 / 10 * Asian_Option_call_price + 5 / 10 * Barrier_option_price.

(** ** Binary option *)

Module Binary.

(** [payoffs = np.maximum(0, np.mean(prices, axis=1) - strike_price)] *)
Definition payoffs (p : SimulationParameters) (prices : matrix) : vector :=
  Np.maximum0 (map (fun row => Np.mean row - strike_price p) prices).

(** [binarypayoffs = np.count_nonzero(payoffs)/simulations]: a Python [int]
    over a Python [int]. *)
Definition binarypayoffs (p : SimulationParameters) (prices : matrix)
  : result R :=
  py_div (INR (Np.count_nonzero (payoffs p prices))) (simulations p).

(** [binaryoption = binarypayoffs*np.exp(-risk_free_rate*Time)] *)
Definition binaryoption (p : SimulationParameters) (prices : matrix)
  : result R :=
  b <- binarypayoffs p prices ;;
  Ok (b * discount p).

End Binary.

(** ** Chooser option *)

Module Chooser.

(** [choosercallpayoffs = np.maximum(0, prices - strike_price)] *)
Definition choosercallpayoffs (p : SimulationParameters) (prices : matrix)
  : matrix :=
  map (fun row => Np.maximum0 (map (fun x => x - strike_price p) row)) prices.

(** [chooserputpayoffs = np.maximum(0, strike_price - prices)] *)
Definition chooserputpayoffs (p : SimulationParameters) (prices : matrix)
  : matrix :=
  map (fun row => Np.maximum0 (map (fun x => strike_price p - x) row)) prices.

(** [for i in range(simulations): sum1 += choosercallpayoffs[i][-1]] *)
Definition sum1 (p : SimulationParameters) (prices : matrix) : result R :=
  sum_last (choosercallpayoffs p prices)
           (seq 0 (Z.to_nat (simulations p))) 0.

(** [for i in range(simulations): sum2 += chooserputpayoffs[i][-1]] *)
Definition sum2 (p : SimulationParameters) (prices : matrix) : result R :=
  sum_last (chooserputpayoffs p prices)
           (seq 0 (Z.to_nat (simulations p))) 0.

(** [chooser_option_price = np.maximum(sum1,sum2)/simulations] *)
Definition chooser_option_price (p : SimulationParameters) (prices : matrix)
  : result R :=
  s1 <- sum1 p prices ;;
  s2 <- sum2 p prices ;;
  Ok (Rmax s1 s2 / IZR (simulations p)).

End Chooser.

(** ** Range statistics *)

Module Range.

(** [scipy.stats.percentileofscore(a, score)] with the default
    [kind='rank'], as the library computes it on the two-dimensional [a] the
    notebook passes: [n = len(a)] is the number of rows, the comparisons
    [a < score] and [a <= score] are counted along the last axis, and each
    count is scaled by [50.0 / n].  The result has one value per row, as the
    output recorded in the notebook shows.  On an empty [a] the library
    returns nan, which is [None] here. *)
Definition percentileofscore (a : matrix) (score : R) : option vector :=
  let n := length a in
  match n with
  | O => None
  | S _ =>
      Some (map (fun row =>
                   let left := length (filter (fun x => Rltb x score) row) in
                   let right := length (filter (fun x => Rleb x score) row) in
                   let plus1 := if (left <? right)%nat then 1%nat else 0%nat in
                   INR (left + right + plus1) * (50 / INR n)) a)
  end.

(** [percentile_of_95 = percentileofscore(prices, 95)] *)
Definition percentile_of_95 (prices : matrix) : option vector :=
  percentileofscore prices 95.

End Range.

(** ** Percentiles of the flattened matrix *)

Module Percentile.

(** Sorting, as [np.percentile] orders the flattened array. *)
Fixpoint insert (x : R) (a : vector) : vector :=
  match a with
  | [] => [x]
  | y :: ys => if Rleb x y then x :: a else y :: insert x ys
  end.

Definition sort (a : vector) : vector := fold_right insert [] a.

(** [np.percentile(a, q)] with the defaults [axis=None] and linear
    interpolation: [q] outside [0, 100] is a [ValueError]; the matrix is
    flattened and sorted; the virtual index is [(n - 1) * (q / 100)]; at or
    beyond the last index both neighbours are the last element, otherwise the
    neighbours are the elements at the floor of the virtual index and one
    further, interpolated by the fractional part.  (The model is for a
    matrix with at least one entry.) *)
Definition percentile (a : matrix) (q : R) : result R :=
  if Rltb q 0 || Rltb 100 q then Err ValueError
  else
    let arr := sort (concat a) in
    let n := length arr in
    let virtual_index := (INR n - 1) * (q / 100) in
    if Rleb (INR n - 1) virtual_index then Ok (nth (n - 1) arr 0)
    else
      let previous := Z.to_nat (Int_part virtual_index) in
      let gamma := virtual_index - IZR (Int_part virtual_index) in
      Ok (nth previous arr 0
          + (nth (S previous) arr 0 - nth previous arr 0) * gamma).

End Percentile.

(** ** What the specification says of a row *)

(** The per-row series [max(0, price - B)]. *)
Definition barrier_series (B : R) (row : vector) : vector :=
  map (fun x => Rmax 0 (x - B)) row.

(** A row is knocked out when its series contains a zero. *)
Definition knocked_out (B : R) (row : vector) : Prop :=
  In 0 (barrier_series B row).

Definition knocked_outb (B : R) (row : vector) : bool :=
  existsb (fun y => negb (Np.nonzero y)) (barrier_series B row).

(** What a row adds to the barrier total: nothing when knocked out, the
    payoff of its final column otherwise. *)
Definition barrier_contribution (B : R) (row : vector) : R :=
  if knocked_outb B row then 0 else Rmax 0 (List.last row 0 - B).

(** The binary payoff of a row. *)
Definition binary_payoff (K : R) (row : vector) : R :=
  if Rltb K (Np.mean row) then 1 else 0.

(** The largest element of a row. *)
Definition row_max (row : vector) : R := fold_right Rmax (hd 0 row) row.

(** The percentile rank of [score] among all the entries of the matrix. *)
Definition flattened_rank (a : matrix) (score : R) : R :=
  let flat := concat a in
  let left := length (filter (fun x => Rltb x score) flat) in
  let right := length (filter (fun x => Rleb x score) flat) in
  let plus1 := if (left <? right)%nat then 1%nat else 0%nat in
  INR (left + right + plus1) * (50 / INR (length flat)).

(** The parameter sets the specification calls invalid. *)
Definition invalid_parameters (p : SimulationParameters) : Prop :=
  spot_price p <= 0 \/ strike_price p <= 0 \/ Time p <= 0 \/ sigma p < 0 \/
  (simulations p <= 0)%Z \/ (Time_steps p <= 0)%Z.

(** ** Predicates and sample inputs *)

(** The notebook's parameters, with two simulations of three steps. *)
Definition sample_parameters : SimulationParameters := {|
  spot_price := 100;
  strike_price := 105;
  Time := 1;
  risk_free_rate := 5 / 100;
  sigma := 2 / 10;
  simulations := 2;
  Time_steps := 3
|}.

(** A draw source for the sample runs. *)
Definition sample_draw (i k : nat) : R := INR i - INR k.

(** The notebook's parameters for one simulation of one step, with a negative
    spot price. *)
Definition negative_spot_parameters : SimulationParameters := {|
  spot_price := -100;
  strike_price := 105;
  Time := 1;
  risk_free_rate := 5 / 100;
  sigma := 2 / 10;
  simulations := 1;
  Time_steps := 1
|}.

(** [m] is the largest element of [a]. *)
Definition is_max (m : R) (a : vector) : Prop :=
  In m a /\ forall x, In x a -> x <= m.

(** Two simulations of two steps: one price of four is below 95. *)
Definition range_sample : matrix := [[90; 100]; [96; 97]].

(** The smallest element of a row. *)
Definition row_min (row : vector) : R := fold_right Rmin (hd 0 row) row.

(** [m] is the smallest element of [a]. *)
Definition is_min (m : R) (a : vector) : Prop :=
  In m a /\ forall x, In x a -> m <= x.

(** ** The exponents of the first cell *)






(** ** The barrier cell and the first cell in binary64

    Where a product or an exponential leaves the range of binary64 the cells
    do not behave as over the reals.  These definitions follow the same cells
    on binary64 values, with IEEE 754 arithmetic. *)

Module B64.

(** [np.maximum(0, x)]: 0 when [0 >= x], otherwise [x]; nan stays nan. *)
Definition maximum0 (x : float) : float :=
  if PrimFloat.leb x 0 then 0%float else x.

(** [payoffs = np.maximum(0, prices - Barrier_price)] *)
Definition payoffs (Barrier_price : float) (prices : list (list float))
  : list (list float) :=
  map (map (fun x => maximum0 (PrimFloat.sub x Barrier_price))) prices.

(** [np.prod] of a row: the factors multiplied in turn. *)
Definition prod (a : list float) : float := fold_left PrimFloat.mul a 1%float.

(** The test [x != 0]; it holds of nan. *)
Definition nonzero (x : float) : bool := negb (PrimFloat.eqb x 0).

(** [Barrier_rows = np.where(np.prod(payoffs, axis=1)!=0)[0]] *)
Definition Barrier_rows (payoffs : list (list float)) : list nat :=
  filter (fun i => nonzero (prod (nth i payoffs []))) (seq 0 (length payoffs)).

(** [a[-1]] *)
Definition last (a : list float) : result float :=
  match a with
  | [] => Err IndexError
  | _ :: _ => Ok (List.last a 0%float)
  end.

(** The loop [for i in Barrier_rows: Barrier_total += payoffs[i][-1]], from
    [Barrier_total = 0]. *)
Fixpoint sum_last (a : list (list float)) (rows : list nat) (acc : float)
  : result float :=
  match rows with
  | [] => Ok acc
  | i :: rest =>
      row <- Np.get a i ;;
      x <- last row ;;
      sum_last a rest (PrimFloat.add acc x)
  end.

Definition Barrier_total (payoffs : list (list float)) : result float :=
  sum_last payoffs (Barrier_rows payoffs) 0%float.

(** A row that stays at 120 for 300 steps, falls to 95 and ends at 100. *)
Definition high_then_dip : list float :=
  repeat 120%float 300 ++ [95%float; 100%float].

(** A row that stays at [99 + 2^-10] for 110 steps. *)
Definition just_above : list float := repeat 99.0009765625%float 110.

(** The parameters of the first cell; the counts are Python integers. *)
Record Parameters : Type := {
  spot_price : float;
  strike_price : float;
  Time : float;
  risk_free_rate : float;
  sigma : float;
  simulations : Z;
  Time_steps : Z
}.


(** A count as a binary64 value (exact below [2^53]). *)
Definition of_count (n : Z) : float := PrimFloat.of_uint63 (Uint63.of_Z n).

(** [np.exp] where the range of binary64 forces the result: below -746 the
    exponential is under half the smallest positive value and rounds to 0;
    above 710 it is over the largest value and overflows to infinity.  In
    between the value is not modelled. *)
Definition exp (x : float) : option float :=
  if PrimFloat.ltb x (-746)%float then Some 0%float
  else if PrimFloat.ltb 710%float x then Some infinity
  else None.

(** One entry of [ratio_matrix]. *)
Definition ratio (p : Parameters) (dt z : float) : option float :=
  exp (PrimFloat.add
         (PrimFloat.mul
            (PrimFloat.sub (risk_free_rate p)
               (PrimFloat.div (PrimFloat.mul (sigma p) (sigma p)) 2%float))
            dt)
         (PrimFloat.mul (PrimFloat.mul (sigma p) z) (PrimFloat.sqrt dt))).

Fixpoint traverse {A B : Type} (f : A -> option B) (l : list A)
  : option (list B) :=
  match l with
  | [] => Some []
  | x :: xs =>
      match f x, traverse f xs with
      | Some y, Some ys => Some (y :: ys)
      | _, _ => None
      end
  end.

(** [np.cumprod] of a row. *)
Fixpoint cumprod_from (acc : float) (a : list float) : list float :=
  match a with
  | [] => []
  | x :: xs => PrimFloat.mul acc x :: cumprod_from (PrimFloat.mul acc x) xs
  end.

Definition cumprod (a : list float) : list float :=
  match a with
  | [] => []
  | x :: xs => x :: cumprod_from x xs
  end.

(** The first cell for [Time_steps >= 1] and [simulations >= 0]; [None] when
    the cell raises or an exponential is not modelled. *)
Definition prices (p : Parameters) (draw : nat -> nat -> float)
  : option (list (list float)) :=
  if ((Time_steps p <=? 0) || (simulations p <? 0))%Z then None
  else
    let dt := PrimFloat.div (Time p) (of_count (Time_steps p)) in
    match traverse
            (fun i => traverse (fun k => ratio p dt (draw i k))
                               (seq 0 (Z.to_nat (Time_steps p))))
            (seq 0 (Z.to_nat (simulations p))) with
    | Some ratio_matrix =>
        Some (map (fun row => map (PrimFloat.mul (spot_price p)) (cumprod row))
                  ratio_matrix)
    | None => None
    end.


End B64.

(** ** Lists and indices *)

Section ListFacts.

Context {A B : Type}.

Lemma nth_map_seq (f : nat -> A) (n i : nat) (d : A) :
  (i < n)%nat -> nth i (map f (seq 0 n)) d = f i.
Proof.
  intros Hi.
  rewrite (nth_indep _ d (f 0%nat)) by (rewrite length_map, length_seq; exact Hi).
  rewrite map_nth, seq_nth by exact Hi.
  reflexivity.
Qed.

Lemma nth_map_in (f : A -> B) (l : list A) (i : nat) (d : B) (d' : A) :
  (i < length l)%nat -> nth i (map f l) d = f (nth i l d').
Proof.
  intros Hi.
  rewrite (nth_indep _ d (f d')) by (rewrite length_map; exact Hi).
  apply map_nth.
Qed.

End ListFacts.

(** ** Running products *)

Lemma length_cumprod_from (a : vector) :
  forall acc, length (Np.cumprod_from acc a) = length a.
Proof.
  induction a as [|x xs IH]; intros acc; simpl; [reflexivity|].
  now rewrite IH.
Qed.

Lemma length_cumprod (a : vector) : length (Np.cumprod a) = length a.
Proof.
  destruct a as [|x xs]; simpl; [reflexivity|].
  now rewrite length_cumprod_from.
Qed.

Lemma prod_upto_shift (f : nat -> R) (j : nat) :
  prod_upto f (S j) = f O * prod_upto (fun k => f (S k)) j.
Proof.
  induction j as [|j IH].
  - reflexivity.
  - change (prod_upto f (S (S j))) with (prod_upto f (S j) * f (S (S j))).
    rewrite IH. simpl. ring.
Qed.

Lemma prod_upto_ext (f g : nat -> R) (j : nat) :
  (forall k, (k <= j)%nat -> f k = g k) -> prod_upto f j = prod_upto g j.
Proof.
  induction j as [|j IH]; intros H; simpl.
  - apply H; lia.
  - rewrite IH by (intros k Hk; apply H; lia).
    rewrite (H (S j)) by lia. reflexivity.
Qed.

Lemma nth_cumprod_from (a : vector) :
  forall acc j, (j < length a)%nat ->
    nth j (Np.cumprod_from acc a) 0 = acc * prod_upto (fun k => nth k a 0) j.
Proof.
  induction a as [|x xs IH]; intros acc j Hj; simpl in Hj; [lia|].
  destruct j as [|j].
  - reflexivity.
  - cbn [Np.cumprod_from nth]. rewrite IH by lia.
    rewrite prod_upto_shift. cbn [nth]. ring.
Qed.

Lemma nth_cumprod (a : vector) (j : nat) :
  (j < length a)%nat ->
  nth j (Np.cumprod a) 0 = prod_upto (fun k => nth k a 0) j.
Proof.
  destruct a as [|x xs]; simpl; intros Hj; [lia|].
  destruct j as [|j]; [reflexivity|].
  rewrite nth_cumprod_from by lia.
  now rewrite prod_upto_shift.
Qed.

Lemma price_after_prod (p : SimulationParameters) (draw : nat -> nat -> R)
  (i j : nat) :
  price_after p draw i (S j)
  = spot_price p
    * prod_upto (fun k =>
        exp ((risk_free_rate p - (sigma p)^2 / 2) * (Time p / IZR (Time_steps p))
             + sigma p * sqrt (Time p / IZR (Time_steps p)) * draw i k)) j.
Proof.
  induction j as [|j IH].
  - reflexivity.
  - change (price_after p draw i (S (S j))) with
      (price_after p draw i (S j)
       * exp ((risk_free_rate p - (sigma p)^2 / 2) * (Time p / IZR (Time_steps p))
              + sigma p * sqrt (Time p / IZR (Time_steps p)) * draw i (S j))).
    rewrite IH. cbn [prod_upto]. ring.
Qed.

(** ** The path matrix *)

Lemma prices_ok (p : SimulationParameters) (draw : nat -> nat -> R) :
  (0 <= simulations p)%Z -> (1 <= Time_steps p)%Z ->
  prices p draw = Ok (path_matrix p draw).
Proof.
  intros HN HM. unfold prices, py_div, Np.normal.
  destruct (Z.eqb_spec (Time_steps p) 0) as [E|_]; [lia|].
  cbn [bind].
  destruct (Z.ltb_spec (simulations p) 0) as [E|_]; [lia|].
  destruct (Z.ltb_spec (Time_steps p) 0) as [E|_]; [lia|].
  reflexivity.
Qed.

Lemma length_path_matrix (p : SimulationParameters) (draw : nat -> nat -> R) :
  length (path_matrix p draw) = Z.to_nat (simulations p).
Proof.
  unfold path_matrix, ratio_matrix.
  now rewrite !length_map, length_seq.
Qed.

Lemma nth_path_matrix (p : SimulationParameters) (draw : nat -> nat -> R)
  (i : nat) :
  (i < Z.to_nat (simulations p))%nat ->
  nth i (path_matrix p draw) []
  = map (Rmult (spot_price p))
      (Np.cumprod
         (map (fun k => ratio p (Time p / IZR (Time_steps p)) (draw i k))
              (seq 0 (Z.to_nat (Time_steps p))))).
Proof.
  intros Hi. unfold path_matrix, ratio_matrix.
  rewrite !map_map.
  rewrite (nth_map_seq _ _ _ _ Hi).
  now rewrite map_map.
Qed.

Lemma length_row_path_matrix (p : SimulationParameters)
  (draw : nat -> nat -> R) (i : nat) :
  (i < Z.to_nat (simulations p))%nat ->
  length (nth i (path_matrix p draw) []) = Z.to_nat (Time_steps p).
Proof.
  intros Hi. rewrite nth_path_matrix by exact Hi.
  now rewrite length_map, length_cumprod, length_map, length_seq.
Qed.

Lemma ratio_spec (p : SimulationParameters) (dt z : R) :
  ratio p dt z
  = exp ((risk_free_rate p - (sigma p)^2 / 2) * dt + sigma p * sqrt dt * z).
Proof. unfold ratio. apply f_equal. field. Qed.

Lemma entry_path_matrix (p : SimulationParameters) (draw : nat -> nat -> R)
  (i j : nat) :
  (i < Z.to_nat (simulations p))%nat -> (j < Z.to_nat (Time_steps p))%nat ->
  entry (path_matrix p draw) i j
  = spot_price p
    * prod_upto (fun k =>
        exp ((risk_free_rate p - (sigma p)^2 / 2) * (Time p / IZR (Time_steps p))
             + sigma p * sqrt (Time p / IZR (Time_steps p)) * draw i k)) j.
Proof.
  intros Hi Hj. unfold entry.
  rewrite nth_path_matrix by exact Hi.
  rewrite (nth_map_in _ _ _ _ 0)
    by (now rewrite length_cumprod, length_map, length_seq).
  rewrite nth_cumprod by (now rewrite length_map, length_seq).
  f_equal. apply prod_upto_ext. intros k Hk.
  rewrite (nth_map_seq _ _ _ _ (Nat.le_lt_trans _ _ _ Hk Hj)).
  apply ratio_spec.
Qed.

Lemma shape_path_matrix (p : SimulationParameters) (draw : nat -> nat -> R) :
  shape (Z.to_nat (simulations p)) (Z.to_nat (Time_steps p))
        (path_matrix p draw).
Proof.
  split; [apply length_path_matrix|].
  apply Forall_forall. intros row Hin.
  destruct (In_nth _ _ [] Hin) as [i [Hi Hrow]].
  rewrite length_path_matrix in Hi.
  rewrite <- Hrow. now apply length_row_path_matrix.
Qed.

(** ** The simulator *)

(** C1. For valid parameters the simulator returns a matrix of [simulations]
    rows and [Time_steps] columns whose entry [(i, j)] is the spot price times
    the product over [k = 0..j] of [exp ((r - sigma^2/2) dt + sigma sqrt(dt)
    Z[i,k])], with [dt = Time / Time_steps].  That entry is the running price
    after [j + 1] steps, so the [Time_steps] columns hold the prices after
    [1 .. Time_steps] steps and none holds the price after 0 steps, the spot
    price. *)
Theorem prices_cumulative_product (p : SimulationParameters)
  (draw : nat -> nat -> R) :
  valid_parameters p ->
  exists m : matrix,
    prices p draw = Ok m /\
    shape (Z.to_nat (simulations p)) (Z.to_nat (Time_steps p)) m /\
    forall i j : nat,
      (i < Z.to_nat (simulations p))%nat ->
      (j < Z.to_nat (Time_steps p))%nat ->
      entry m i j
      = spot_price p
        * prod_upto (fun k =>
            exp ((risk_free_rate p - (sigma p)^2 / 2)
                   * (Time p / IZR (Time_steps p))
                 + sigma p * sqrt (Time p / IZR (Time_steps p)) * draw i k)) j
      /\ entry m i j = price_after p draw i (S j).
Proof.
  intros (_ & _ & _ & _ & HN & HM).
  exists (path_matrix p draw).
  split; [apply prices_ok; lia|].
  split; [apply shape_path_matrix|].
  intros i j Hi Hj.
  rewrite price_after_prod.
  split; apply entry_path_matrix; assumption.
Qed.

Lemma prices_cumulative_product_sample :
  valid_parameters sample_parameters /\
  exists m : matrix,
    prices sample_parameters sample_draw = Ok m /\
    shape (Z.to_nat (simulations sample_parameters))
          (Z.to_nat (Time_steps sample_parameters)) m /\
    forall i j : nat,
      (i < Z.to_nat (simulations sample_parameters))%nat ->
      (j < Z.to_nat (Time_steps sample_parameters))%nat ->
      entry m i j
      = spot_price sample_parameters
        * prod_upto (fun k =>
            exp ((risk_free_rate sample_parameters
                  - (sigma sample_parameters)^2 / 2)
                   * (Time sample_parameters
                      / IZR (Time_steps sample_parameters))
                 + sigma sample_parameters
                   * sqrt (Time sample_parameters
                           / IZR (Time_steps sample_parameters))
                   * sample_draw i k)) j
      /\ entry m i j = price_after sample_parameters sample_draw i (S j).
Proof.
  split.
  - unfold valid_parameters, sample_parameters; simpl.
    repeat split; try lra; lia.
  - apply (prices_cumulative_product sample_parameters sample_draw).
    unfold valid_parameters, sample_parameters; simpl.
    repeat split; try lra; lia.
Defined.

(** ** No validation *)

(** C7, as stated, fails: a negative spot price is not rejected; a path
    matrix is produced, and its price is negative. *)
Lemma prices_accepts_negative_spot :
  invalid_parameters negative_spot_parameters /\
  exists m : matrix,
    prices negative_spot_parameters (fun _ _ => 0) = Ok m /\
    shape 1 1 m /\ entry m 0 0 < 0.
Proof.
  split.
  - left. simpl. lra.
  - exists (path_matrix negative_spot_parameters (fun _ _ => 0)).
    split; [apply prices_ok; simpl; lia|].
    split; [apply (shape_path_matrix negative_spot_parameters)|].
    rewrite entry_path_matrix by (simpl; lia).
    cbn [prod_upto spot_price negative_spot_parameters].
    match goal with |- -100 * exp ?x < 0 => pose proof (exp_pos x) end.
    lra.
Qed.

(** C7, amended.  The cell validates nothing.  It stops before a matrix
    exists exactly when [Time_steps] is 0 (the division [Time / Time_steps])
    or a count is negative (the array of draws); for every other parameter
    set, whatever the spot price, strike, maturity and volatility, it returns
    the [simulations] by [Time_steps] path matrix. *)
Theorem prices_raises_iff_bad_counts (p : SimulationParameters)
  (draw : nat -> nat -> R) :
  ((exists e, prices p draw = Err e)
   <-> (Time_steps p <= 0 \/ simulations p < 0)%Z) /\
  ((exists m, prices p draw = Ok m /\
      shape (Z.to_nat (simulations p)) (Z.to_nat (Time_steps p)) m)
   <-> (1 <= Time_steps p /\ 0 <= simulations p)%Z) /\
  (Time_steps p = 0%Z <-> prices p draw = Err ZeroDivisionError).
Proof.
  assert (Hok : (1 <= Time_steps p /\ 0 <= simulations p)%Z ->
                prices p draw = Ok (path_matrix p draw))
    by (intros [? ?]; now apply prices_ok).
  assert (Herr : (Time_steps p <= 0 \/ simulations p < 0)%Z ->
                 (Time_steps p = 0%Z /\ prices p draw = Err ZeroDivisionError)
                 \/ (Time_steps p <> 0%Z /\ prices p draw = Err ValueError)).
  { intros H. unfold prices, py_div, Np.normal.
    destruct (Z.eqb_spec (Time_steps p) 0) as [E|E]; [left; now split|].
    right. split; [exact E|]. cbn [bind].
    destruct (Z.ltb_spec (simulations p) 0) as [E1|E1]; [reflexivity|].
    destruct (Z.ltb_spec (Time_steps p) 0) as [E2|E2]; [reflexivity|lia]. }
  assert (Hcases : (Time_steps p <= 0 \/ simulations p < 0)%Z
                   \/ (1 <= Time_steps p /\ 0 <= simulations p)%Z) by lia.
  split; [split | split; [split | split]].
  - intros [e He]. destruct Hcases as [H|H]; [exact H|].
    rewrite (Hok H) in He. discriminate.
  - intros H. destruct (Herr H) as [[_ E]|[_ E]]; eauto.
  - intros [m [Hm _]]. destruct Hcases as [H|H]; [|exact H].
    destruct (Herr H) as [[_ E]|[_ E]]; rewrite E in Hm; discriminate.
  - intros H. exists (path_matrix p draw).
    split; [now apply Hok | apply shape_path_matrix].
  - intros H. assert (Hc : (Time_steps p <= 0 \/ simulations p < 0)%Z) by lia.
    destruct (Herr Hc) as [[_ E]|[E _]]; [exact E | contradiction].
  - intros H. destruct Hcases as [Hc|Hc].
    + destruct (Herr Hc) as [[E _]|[_ E]]; [exact E|].
      rewrite E in H. discriminate.
    + rewrite (Hok Hc) in H. discriminate.
Qed.

(** ** Sums *)

Lemma fold_left_Rplus_acc (a : vector) :
  forall acc, fold_left Rplus a acc = acc + Np.sum a.
Proof.
  unfold Np.sum.
  induction a as [|x xs IH]; intros acc; simpl.
  - ring.
  - rewrite IH, (IH (0 + x)). ring.
Qed.

Lemma sum_nil : Np.sum [] = 0.
Proof. reflexivity. Qed.

Lemma sum_cons (x : R) (a : vector) : Np.sum (x :: a) = x + Np.sum a.
Proof.
  unfold Np.sum at 1. simpl. rewrite fold_left_Rplus_acc. ring.
Qed.

Lemma sum_app (a b : vector) : Np.sum (a ++ b) = Np.sum a + Np.sum b.
Proof.
  induction a as [|x xs IH]; simpl.
  - rewrite sum_nil. ring.
  - rewrite !sum_cons, IH. ring.
Qed.

(** The list sum as the indexed sum of the Standard Library. *)
Lemma sum_indexed (a : vector) :
  a <> [] -> Np.sum a = sum_f_R0 (fun i => nth i a 0) (length a - 1).
Proof.
  induction a as [|x xs IH] using rev_ind; intros Hne; [contradiction|].
  rewrite sum_app, sum_cons, sum_nil, length_app. simpl length.
  replace (length xs + 1 - 1)%nat with (length xs) by lia.
  destruct xs as [|y ys].
  - rewrite sum_nil. simpl. ring.
  - rewrite IH by discriminate.
    simpl length. replace (S (length ys) - 1)%nat with (length ys) by lia.
    cbn [sum_f_R0].
    rewrite (app_nth2 (y :: ys) [x]) by (simpl; lia).
    replace (S (length ys) - length (y :: ys))%nat with 0%nat by (simpl; lia).
    cbn [nth]. rewrite Rplus_0_r. f_equal.
    apply sum_eq. intros i Hi.
    symmetry. apply app_nth1. simpl. lia.
Qed.

Lemma sum_map_indexed (f : R -> R) (a : vector) :
  a <> [] ->
  Np.sum (map f a) = sum_f_R0 (fun i => f (nth i a 0)) (length a - 1).
Proof.
  intros Hne.
  rewrite sum_indexed by (destruct a; [contradiction | discriminate]).
  rewrite length_map. apply sum_eq. intros i Hi.
  apply nth_map_in.
  destruct a; [contradiction | simpl in *; lia].
Qed.

Lemma INR_to_nat (n : Z) : (0 <= n)%Z -> INR (Z.to_nat n) = IZR n.
Proof.
  intros Hn. rewrite INR_IZR_INZ, Z2Nat.id by exact Hn. reflexivity.
Qed.

(** ** The aggregator: price, variance, standard error *)

(** C3. For a payoff vector of length [N = simulations >= 2]: the price is
    the mean of the payoffs times [exp (- r T)]; the variance is the sum of
    the squared distances of the payoffs from that discounted price (not from
    the mean of the payoffs), over [N - 1]; the standard error is the square
    root of the variance over [N]. *)
Theorem aggregator_formulas (p : SimulationParameters) (payoffs : vector) :
  (2 <= simulations p)%Z ->
  length payoffs = Z.to_nat (simulations p) ->
  let N := Z.to_nat (simulations p) in
  let price := Asian.Asian_Option_call_price p payoffs in
  price
  = sum_f_R0 (fun i => nth i payoffs 0) (N - 1) / INR N
    * exp (- (risk_free_rate p * Time p)) /\
  Asian.variance p payoffs
  = sum_f_R0 (fun i => (nth i payoffs 0 - price) ^ 2) (N - 1) / (INR N - 1) /\
  Asian.standard_error p payoffs = sqrt (Asian.variance p payoffs / INR N).
Proof.
  intros HN Hlen N price.
  assert (Hne : payoffs <> []).
  { intros E. rewrite E in Hlen. simpl in Hlen. lia. }
  assert (HNR : INR N = IZR (simulations p)) by (apply INR_to_nat; lia).
  split; [|split].
  - unfold price, Asian.Asian_Option_call_price, Np.mean, discount.
    rewrite sum_indexed by exact Hne. rewrite Hlen.
    fold N. f_equal. f_equal. ring.
  - unfold Asian.variance, Asian.var_matrix. fold price.
    rewrite sum_map_indexed by exact Hne. rewrite Hlen. fold N.
    rewrite minus_IZR, HNR. reflexivity.
  - unfold Asian.standard_error. now rewrite HNR.
Qed.

Lemma aggregator_formulas_sample :
  (2 <= simulations sample_parameters)%Z /\
  length [10; 25] = Z.to_nat (simulations sample_parameters) /\
  (Asian.Asian_Option_call_price sample_parameters [10; 25]
   = sum_f_R0 (fun i => nth i [10; 25] 0)
       (Z.to_nat (simulations sample_parameters) - 1)
     / INR (Z.to_nat (simulations sample_parameters))
     * exp (- (risk_free_rate sample_parameters * Time sample_parameters)) /\
   Asian.variance sample_parameters [10; 25]
   = sum_f_R0
       (fun i => (nth i [10; 25] 0
                  - Asian.Asian_Option_call_price sample_parameters [10; 25]) ^ 2)
       (Z.to_nat (simulations sample_parameters) - 1)
     / (INR (Z.to_nat (simulations sample_parameters)) - 1) /\
   Asian.standard_error sample_parameters [10; 25]
   = sqrt (Asian.variance sample_parameters [10; 25]
           / INR (Z.to_nat (simulations sample_parameters)))).
Proof.
  split; [simpl; lia|].
  split; [reflexivity|].
  apply (aggregator_formulas sample_parameters [10; 25]).
  - simpl; lia.
  - reflexivity.
Defined.

(** The variance of a vector of [N >= 2] copies of [c]: the payoffs all lie
    [c (1 - exp (- r T))] away from the discounted price. *)
Lemma sum_map_repeat (f : R -> R) (c : R) (n : nat) :
  Np.sum (map f (repeat c n)) = INR n * f c.
Proof.
  induction n as [|n IH].
  - simpl. rewrite sum_nil. ring.
  - cbn [repeat map]. rewrite sum_cons, IH, S_INR. ring.
Qed.

Lemma variance_identical_payoffs (p : SimulationParameters) (c : R) :
  (2 <= simulations p)%Z ->
  Asian.variance p (repeat c (Z.to_nat (simulations p)))
  = IZR (simulations p) / (IZR (simulations p) - 1)
    * (c * (1 - exp (- (risk_free_rate p * Time p)))) ^ 2.
Proof.
  intros HN.
  assert (HNR : INR (Z.to_nat (simulations p)) = IZR (simulations p))
    by (apply INR_to_nat; lia).
  assert (H2 : 2 <= IZR (simulations p)) by (apply IZR_le; exact HN).
  unfold Asian.variance, Asian.var_matrix.
  rewrite sum_map_repeat.
  unfold Asian.Asian_Option_call_price, Np.mean, discount.
  rewrite <- (map_id (repeat c _)) at 1.
  rewrite sum_map_repeat, repeat_length, HNR, minus_IZR.
  replace (- risk_free_rate p * Time p) with (- (risk_free_rate p * Time p))
    by ring.
  field. lra.
Qed.

Lemma sample_discount_below_1 : discount sample_parameters < 1.
Proof.
  unfold discount. rewrite <- exp_0. apply exp_increasing. simpl. lra.
Qed.

(** C6 on the code: two identical payoffs of 10, at the notebook's rate and
    maturity, have a variance that is not 0. *)
Lemma variance_identical_payoffs_positive :
  0 < Asian.variance sample_parameters [10; 10].
Proof.
  pose proof sample_discount_below_1 as Hd.
  pose proof (exp_pos (- risk_free_rate sample_parameters
                       * Time sample_parameters)) as Hp.
  unfold Asian.variance, Asian.var_matrix, Asian.Asian_Option_call_price,
    Np.mean.
  fold (discount sample_parameters) in Hp.
  cbn [map length simulations sample_parameters].
  rewrite !sum_cons, sum_nil.
  change (INR 2) with (1 + 1). change (2 - 1)%Z with 1%Z.
  set (d := discount sample_parameters) in *.
  replace ((10 + (10 + 0)) / (1 + 1) * d) with (10 * d) by field.
  assert (0 < (10 - 10 * d) ^ 2) by (apply pow_lt; lra).
  lra.
Qed.

(** ** Maxima and means of a row *)

Ltac case_Rmax := unfold Rmax; destruct (Rle_dec _ _); try lra.

Lemma Rmax_0_nonneg (x : R) : 0 <= Rmax 0 x.
Proof. case_Rmax. Qed.

Lemma Rmax_0_mono (x y : R) : x <= y -> Rmax 0 x <= Rmax 0 y.
Proof. intros H. unfold Rmax. do 2 destruct (Rle_dec _ _); lra. Qed.

Lemma fold_left_Rmax_is_max (a : vector) :
  forall x, is_max (fold_left Rmax a x) (x :: a).
Proof.
  induction a as [|y ys IH]; intros x; simpl.
  - split; [now left | intros z [<-|[]]; lra].
  - destruct (IH (Rmax x y)) as [Hin Hub]. split.
    + destruct Hin as [E|Hin]; [|now right; right].
      rewrite <- E. unfold Rmax. destruct (Rle_dec x y); [right|]; now left.
    + assert (Hxy : Rmax x y <= fold_left Rmax ys (Rmax x y))
        by (apply Hub; now left).
      intros z [<-|[<-|Hz]].
      * revert Hxy. case_Rmax.
      * revert Hxy. case_Rmax.
      * apply Hub. now right.
Qed.

Lemma fold_right_Rmax_is_max (a : vector) (x : R) :
  is_max (fold_right Rmax x a) (x :: a).
Proof.
  induction a as [|y ys [Hin Hub]]; simpl.
  - split; [now left | intros z [<-|[]]; lra].
  - split.
    + unfold Rmax. destruct (Rle_dec _ _).
      * destruct Hin as [E|Hin]; [now left | now right; right].
      * right. now left.
    + assert (Hx : x <= fold_right Rmax x ys) by (apply Hub; now left).
      intros z [<-|[<-|Hz]].
      * revert Hx. case_Rmax.
      * case_Rmax.
      * assert (z <= fold_right Rmax x ys) by (apply Hub; now right).
        revert H. case_Rmax.
Qed.

Lemma row_max_is_max (row : vector) : row <> [] -> is_max (row_max row) row.
Proof.
  destruct row as [|x xs]; [contradiction|]. intros _.
  unfold row_max. cbn [hd].
  destruct (fold_right_Rmax_is_max (x :: xs) x) as [Hin Hub].
  split.
  - destruct Hin as [E|Hin]; [rewrite <- E; now left | exact Hin].
  - intros z Hz. apply Hub. now right.
Qed.

Lemma is_max_unique (m m' : R) (a : vector) :
  is_max m a -> is_max m' a -> m = m'.
Proof.
  intros [Hin Hub] [Hin' Hub'].
  apply Rle_antisym; [apply Hub', Hin | apply Hub, Hin'].
Qed.

Lemma is_max_shift (K m : R) (a : vector) :
  is_max m a -> is_max (m - K) (map (fun x => x - K) a).
Proof.
  intros [Hin Hub]. split.
  - apply in_map_iff. now exists m.
  - intros y Hy. apply in_map_iff in Hy. destruct Hy as [x [<- Hx]].
    apply Hub in Hx. lra.
Qed.

Lemma amax_shift (K : R) (row : vector) :
  row <> [] -> Np.amax (map (fun x => x - K) row) = Ok (row_max row - K).
Proof.
  intros Hne. pose proof (row_max_is_max row Hne) as Hmax.
  destruct row as [|x xs]; [contradiction|].
  cbn [map Np.amax]. f_equal.
  eapply is_max_unique.
  - apply fold_left_Rmax_is_max.
  - apply (is_max_shift K _ (x :: xs)), Hmax.
Qed.



Lemma mapM_ok {A B : Type} (f : A -> result B) (g : A -> B) (l : list A) :
  Forall (fun x => f x = Ok (g x)) l -> mapM f l = Ok (map g l).
Proof.
  induction 1 as [|x xs Hx _ IH]; simpl; [reflexivity|].
  now rewrite Hx, IH.
Qed.

Lemma Lookback_payoffs_ok (p : SimulationParameters) (prices : matrix) :
  Forall (fun row => row <> []) prices ->
  Lookback.payoffs p prices
  = Ok (map (fun row => Rmax 0 (row_max row - strike_price p)) prices).
Proof.
  intros Hne. unfold Lookback.payoffs.
  rewrite (mapM_ok _ (fun row => row_max row - strike_price p)).
  - cbn [bind]. unfold Np.maximum0. now rewrite map_map.
  - revert Hne. apply Forall_impl. intros row. apply amax_shift.
Qed.



(** ** Binary option *)

Lemma nonzero_Rmax_0 (K m : R) : Np.nonzero (Rmax 0 (m - K)) = Rltb K m.
Proof.
  unfold Np.nonzero, Rltb, Rmax.
  destruct (Rle_dec 0 (m - K)), (Req_dec_T _ 0), (Rlt_dec K m);
    try reflexivity; lra.
Qed.

Lemma count_nonzero_map {A : Type} (f : A -> R) (l : list A) :
  Np.count_nonzero (map f l)
  = length (filter (fun x => Np.nonzero (f x)) l).
Proof.
  unfold Np.count_nonzero.
  induction l as [|x xs IH]; simpl; [reflexivity|].
  destruct (Np.nonzero (f x)); simpl; now rewrite IH.
Qed.

Lemma sum_indicator {A : Type} (f : A -> bool) (l : list A) :
  Np.sum (map (fun x => if f x then 1 else 0) l) = INR (length (filter f l)).
Proof.
  induction l as [|x xs IH]; [exact sum_nil|].
  cbn [map filter]. rewrite sum_cons, IH.
  destruct (f x).
  - change (length (x :: filter f xs)) with (S (length (filter f xs))).
    rewrite S_INR. ring.
  - ring.
Qed.

Lemma Binary_count (p : SimulationParameters) (prices : matrix) :
  Np.count_nonzero (Binary.payoffs p prices)
  = length (filter (fun row => Rltb (strike_price p) (Np.mean row)) prices).
Proof.
  unfold Binary.payoffs, Np.maximum0.
  rewrite map_map, count_nonzero_map.
  f_equal. apply filter_ext. intros row. apply nonzero_Rmax_0.
Qed.

(** C9. On an [N] by [M] path matrix ([N = simulations >= 1], [M >= 1]), the
    binary option price is
    the mean over the rows of the payoff that is 1 when the row's average
    price is strictly above the strike and 0 otherwise, times [exp (- r T)];
    that mean is the number of rows whose average is above the strike over
    the number of rows, and a row's entry of [payoffs] is non-zero exactly
    when its payoff is 1. *)
Theorem binaryoption_fraction (p : SimulationParameters) (m : nat)
  (prices : matrix) :
  (1 <= simulations p)%Z -> (1 <= m)%nat ->
  shape (Z.to_nat (simulations p)) m prices ->
  Binary.binaryoption p prices
  = Ok (Np.mean (map (binary_payoff (strike_price p)) prices)
        * exp (- (risk_free_rate p * Time p))) /\
  Np.mean (map (binary_payoff (strike_price p)) prices)
  = INR (length (filter (fun row => Rltb (strike_price p) (Np.mean row))
                        prices))
    / INR (length prices) /\
  (forall row : vector,
     (strike_price p < Np.mean row -> binary_payoff (strike_price p) row = 1) /\
     (Np.mean row <= strike_price p -> binary_payoff (strike_price p) row = 0)) /\
  (forall i : nat, (i < length prices)%nat ->
     nth i (Binary.payoffs p prices) 0 <> 0
     <-> binary_payoff (strike_price p) (nth i prices []) = 1).
Proof.
  intros HN _ [Hlen _].
  assert (HNR : INR (length prices) = IZR (simulations p))
    by (rewrite Hlen; apply INR_to_nat; lia).
  assert (Hmean : Np.mean (map (binary_payoff (strike_price p)) prices)
                  = INR (length (filter
                           (fun row => Rltb (strike_price p) (Np.mean row))
                           prices))
                    / INR (length prices)).
  { unfold Np.mean at 1. rewrite length_map. f_equal.
    apply (sum_indicator (fun row => Rltb (strike_price p) (Np.mean row))). }
  split; [|split; [exact Hmean|split]].
  - rewrite Hmean.
    unfold Binary.binaryoption, Binary.binarypayoffs, py_div.
    destruct (Z.eqb_spec (simulations p) 0) as [E|_]; [lia|].
    cbn [bind]. rewrite Binary_count, HNR. unfold discount.
    do 2 f_equal. f_equal. ring.
  - intros row. unfold binary_payoff, Rltb.
    split; intros H; destruct (Rlt_dec _ _); try reflexivity; lra.
  - intros i Hi. unfold Binary.payoffs, Np.maximum0. rewrite map_map.
    rewrite (nth_map_in (A:=vector) _ prices i 0 []) by exact Hi.
    pose proof (nonzero_Rmax_0 (strike_price p) (Np.mean (nth i prices [])))
      as Hnz.
    unfold binary_payoff. rewrite <- Hnz. unfold Np.nonzero.
    destruct (Req_dec_T _ 0) as [E|E]; split; intros H;
      try reflexivity; try assumption; try contradiction; lra.
Qed.

Lemma binaryoption_fraction_sample :
  (1 <= simulations sample_parameters)%Z /\ (1 <= 3)%nat /\
  shape (Z.to_nat (simulations sample_parameters)) 3
        [[100; 110; 120]; [100; 90; 80]] /\
  Binary.binaryoption sample_parameters [[100; 110; 120]; [100; 90; 80]]
  = Ok (Np.mean (map (binary_payoff (strike_price sample_parameters))
                     [[100; 110; 120]; [100; 90; 80]])
        * exp (- (risk_free_rate sample_parameters * Time sample_parameters))).
Proof.
  assert (Hshape : shape (Z.to_nat (simulations sample_parameters)) 3
                     [[100; 110; 120]; [100; 90; 80]])
    by (split; [reflexivity | repeat constructor]).
  split; [simpl; lia|].
  split; [lia|].
  split; [exact Hshape|].
  apply (binaryoption_fraction sample_parameters 3
           [[100; 110; 120]; [100; 90; 80]]).
  - simpl; lia.
  - lia.
  - exact Hshape.
Defined.

(** ** Sums of final columns *)

Lemma last_ok (row : vector) :
  row <> [] -> Np.last row = Ok (List.last row 0).
Proof. destruct row; [contradiction | reflexivity]. Qed.

Lemma last_map (f : R -> R) (row : vector) :
  row <> [] -> List.last (map f row) 0 = f (List.last row 0).
Proof.
  induction row as [|x xs IH]; [contradiction|]. intros _.
  destruct xs as [|y ys]; [reflexivity|].
  change (List.last (map f (y :: ys)) 0 = f (List.last (y :: ys) 0)).
  apply IH. discriminate.
Qed.

Lemma map_nth_all {A B : Type} (g : A -> B) (l : list A) (d : A) :
  map (fun i => g (nth i l d)) (seq 0 (length l)) = map g l.
Proof.
  induction l as [|x xs IH]; [reflexivity|].
  cbn [length seq map nth]. f_equal.
  rewrite <- seq_shift, map_map. exact IH.
Qed.

Lemma sum_last_ok (a : matrix) (rows : list nat) :
  Forall (fun row => row <> []) a ->
  Forall (fun i => (i < length a)%nat) rows ->
  forall acc,
    sum_last a rows acc
    = Ok (acc + Np.sum (map (fun i => List.last (nth i a []) 0) rows)).
Proof.
  intros Hne. induction 1 as [|i rest Hi _ IH]; intros acc.
  - cbn [sum_last map]. rewrite sum_nil. f_equal. ring.
  - cbn [sum_last map]. unfold Np.get.
    destruct (nth_error a i) as [row|] eqn:E.
    + cbn [bind].
      rewrite (nth_error_nth _ _ [] E).
      rewrite last_ok
        by (apply (proj1 (Forall_forall _ _) Hne); eapply nth_error_In, E).
      cbn [bind]. rewrite IH, sum_cons. f_equal. ring.
    + apply nth_error_None in E. lia.
Qed.

Lemma sum_last_all (a : matrix) :
  Forall (fun row => row <> []) a ->
  sum_last a (seq 0 (length a)) 0
  = Ok (Np.sum (map (fun row => List.last row 0) a)).
Proof.
  intros Hne. rewrite sum_last_ok.
  - rewrite (map_nth_all (fun row => List.last row 0)). f_equal. ring.
  - exact Hne.
  - apply Forall_forall. intros i Hi. apply in_seq in Hi. lia.
Qed.

Lemma Forall_map_nonempty (f : R -> R) (a : matrix) :
  Forall (fun row => row <> []) a ->
  Forall (fun row => row <> []) (map (map f) a).
Proof.
  intros H. rewrite Forall_map. revert H. apply Forall_impl.
  intros row Hrow E. apply map_eq_nil in E. contradiction.
Qed.

Lemma shape_nonempty (n m : nat) (a : matrix) :
  (1 <= m)%nat -> shape n m a -> Forall (fun row => row <> []) a.
Proof.
  intros Hm [_ Hrows]. revert Hrows. apply Forall_impl.
  intros row Hlen E. rewrite E in Hlen. simpl in Hlen. lia.
Qed.

Lemma sum_last_payoffs (f : R -> R) (a : matrix) :
  Forall (fun row => row <> []) a ->
  sum_last (map (fun row => Np.maximum0 (map f row)) a) (seq 0 (length a)) 0
  = Ok (Np.sum (map (fun row => Rmax 0 (f (List.last row 0))) a)).
Proof.
  intros Hne.
  replace (map (fun row => Np.maximum0 (map f row)) a)
    with (map (map (fun x => Rmax 0 (f x))) a)
    by (apply map_ext; intros row; unfold Np.maximum0; now rewrite map_map).
  rewrite <- (length_map (map (fun x => Rmax 0 (f x))) a) at 1.
  rewrite sum_last_all by (now apply Forall_map_nonempty).
  rewrite map_map. do 2 f_equal.
  apply map_ext_in. intros row Hrow. apply last_map.
  apply (proj1 (Forall_forall _ _) Hne). exact Hrow.
Qed.

(** ** Chooser option *)

(** C4. On an [N] by [M] path matrix ([N = simulations >= 1], [M >= 1]) the
    chooser price is the larger of the sum over the rows of [max(0, final -
    strike)] and the sum over the rows of [max(0, strike - final)], over [N].
    The comparison is between the two sums, once; the price is a function of
    the matrix and the parameters. *)
Theorem chooser_option_price_aggregate (p : SimulationParameters)
  (m : nat) (prices : matrix) :
  (1 <= simulations p)%Z -> (1 <= m)%nat ->
  shape (Z.to_nat (simulations p)) m prices ->
  Chooser.chooser_option_price p prices
  = Ok (Rmax
          (Np.sum (map (fun row => Rmax 0 (List.last row 0 - strike_price p))
                       prices))
          (Np.sum (map (fun row => Rmax 0 (strike_price p - List.last row 0))
                       prices))
        / IZR (simulations p)).
Proof.
  intros HN Hm Hshape.
  pose proof (shape_nonempty _ _ _ Hm Hshape) as Hne.
  destruct Hshape as [Hlen _].
  unfold Chooser.chooser_option_price, Chooser.sum1, Chooser.sum2,
    Chooser.choosercallpayoffs, Chooser.chooserputpayoffs.
  rewrite <- Hlen.
  rewrite (sum_last_payoffs (fun x => x - strike_price p)) by exact Hne.
  rewrite (sum_last_payoffs (fun x => strike_price p - x)) by exact Hne.
  reflexivity.
Qed.

Lemma chooser_option_price_aggregate_sample :
  (1 <= simulations sample_parameters)%Z /\ (1 <= 3)%nat /\
  shape (Z.to_nat (simulations sample_parameters)) 3
        [[100; 110; 120]; [100; 90; 80]] /\
  Chooser.chooser_option_price sample_parameters
    [[100; 110; 120]; [100; 90; 80]]
  = Ok (Rmax
          (Np.sum (map (fun row =>
                          Rmax 0 (List.last row 0
                                  - strike_price sample_parameters))
                       [[100; 110; 120]; [100; 90; 80]]))
          (Np.sum (map (fun row =>
                          Rmax 0 (strike_price sample_parameters
                                  - List.last row 0))
                       [[100; 110; 120]; [100; 90; 80]]))
        / IZR (simulations sample_parameters)).
Proof.
  assert (Hshape : shape (Z.to_nat (simulations sample_parameters)) 3
                     [[100; 110; 120]; [100; 90; 80]])
    by (split; [reflexivity | repeat constructor]).
  split; [simpl; lia|].
  split; [lia|].
  split; [exact Hshape|].
  apply (chooser_option_price_aggregate sample_parameters 3
           [[100; 110; 120]; [100; 90; 80]]).
  - simpl; lia.
  - lia.
  - exact Hshape.
Defined.

(** ** Barrier option *)

Lemma fold_left_Rmult_acc (a : vector) :
  forall acc, fold_left Rmult a acc = acc * Np.prod a.
Proof.
  unfold Np.prod.
  induction a as [|x xs IH]; intros acc; simpl.
  - ring.
  - rewrite IH, (IH (1 * x)). ring.
Qed.

Lemma prod_cons (x : R) (a : vector) : Np.prod (x :: a) = x * Np.prod a.
Proof.
  unfold Np.prod at 1. simpl. rewrite fold_left_Rmult_acc. ring.
Qed.

Lemma prod_zero_iff (a : vector) : Np.prod a = 0 <-> In 0 a.
Proof.
  induction a as [|x xs IH].
  - unfold Np.prod. simpl. split; [lra | contradiction].
  - rewrite prod_cons. split.
    + intros H. apply Rmult_integral in H. destruct H as [H|H].
      * now left.
      * right. now apply IH.
    + intros [H|H].
      * rewrite H. apply Rmult_0_l.
      * apply IH in H. rewrite H. apply Rmult_0_r.
Qed.

Lemma knocked_outb_spec (B : R) (row : vector) :
  knocked_outb B row = true <-> knocked_out B row.
Proof.
  unfold knocked_outb, knocked_out. rewrite existsb_exists.
  split.
  - intros [y [Hin Hy]]. unfold Np.nonzero in Hy.
    destruct (Req_dec_T y 0) as [E|_]; [now subst | discriminate].
  - intros Hin. exists 0. split; [exact Hin|].
    unfold Np.nonzero. destruct (Req_dec_T 0 0); [reflexivity | contradiction].
Qed.

Lemma knocked_out_touch (B : R) (row : vector) :
  knocked_out B row <-> exists x, In x row /\ x <= B.
Proof.
  unfold knocked_out, barrier_series. rewrite in_map_iff.
  split; intros [x [H1 H2]]; exists x.
  - split; [exact H2|]. revert H1. case_Rmax.
  - split; [|exact H1]. case_Rmax.
Qed.

Lemma nonzero_prod_series (B : R) (row : vector) :
  Np.nonzero (Np.prod (barrier_series B row)) = negb (knocked_outb B row).
Proof.
  destruct (knocked_outb B row) eqn:E; unfold Np.nonzero;
    destruct (Req_dec_T _ 0) as [H|H]; try reflexivity; exfalso.
  - apply H, prod_zero_iff, knocked_outb_spec, E.
  - apply prod_zero_iff, knocked_outb_spec in H. congruence.
Qed.

Lemma sum_filter {A : Type} (f : A -> bool) (h : A -> R) (l : list A) :
  Np.sum (map h (filter f l))
  = Np.sum (map (fun x => if f x then h x else 0) l).
Proof.
  induction l as [|x xs IH]; [reflexivity|].
  cbn [filter map]. rewrite sum_cons, <- IH.
  destruct (f x).
  - cbn [map]. now rewrite sum_cons.
  - ring.
Qed.

Lemma Barrier_payoffs_series (B : R) (prices : matrix) :
  Barrier.payoffs B prices = map (barrier_series B) prices.
Proof.
  unfold Barrier.payoffs, Np.maximum0, barrier_series.
  apply map_ext. intros row. apply map_map.
Qed.

Lemma Barrier_total_ok (B : R) (prices : matrix) :
  Forall (fun row => row <> []) prices ->
  Barrier.Barrier_total (Barrier.payoffs B prices)
  = Ok (Np.sum (map (barrier_contribution B) prices)).
Proof.
  intros Hne. rewrite Barrier_payoffs_series.
  unfold Barrier.Barrier_total, Barrier.Barrier_rows.
  rewrite sum_last_ok.
  - rewrite sum_filter.
    rewrite (map_nth_all
               (fun row => if Np.nonzero (Np.prod row)
                           then List.last row 0 else 0)).
    rewrite map_map. f_equal. rewrite Rplus_0_l. f_equal.
    apply map_ext_in. intros row Hrow.
    rewrite nonzero_prod_series. unfold barrier_contribution.
    destruct (knocked_outb B row); cbn [negb]; [reflexivity|].
    unfold barrier_series.
    rewrite (last_map (fun x => Rmax 0 (x - B))); [reflexivity|].
    apply (proj1 (Forall_forall _ _) Hne). exact Hrow.
  - now apply Forall_map_nonempty.
  - apply Forall_forall. intros i Hi.
    apply filter_In in Hi. destruct Hi as [Hi _].
    apply in_seq in Hi. lia.
Qed.

(** ** Range statistics *)

Lemma Rltb_true (x y : R) : x < y -> Rltb x y = true.
Proof. intros H. unfold Rltb. destruct (Rlt_dec x y); [reflexivity | lra]. Qed.

Lemma Rltb_false (x y : R) : y <= x -> Rltb x y = false.
Proof. intros H. unfold Rltb. destruct (Rlt_dec x y); [lra | reflexivity]. Qed.

Lemma Rleb_true (x y : R) : x <= y -> Rleb x y = true.
Proof. intros H. unfold Rleb. destruct (Rle_dec x y); [reflexivity | lra]. Qed.

Lemma Rleb_false (x y : R) : y < x -> Rleb x y = false.
Proof. intros H. unfold Rleb. destruct (Rle_dec x y); [lra | reflexivity]. Qed.

(** C8 on the code: for the level 95 the call returns one value per
    simulation row, 50 and 0 here, each a count along the row scaled by
    [50 / N]; the percentile rank of 95 among the four prices is 25. *)
Lemma percentile_of_95_per_row :
  Range.percentile_of_95 range_sample = Some [50; 0] /\
  flattened_rank range_sample 95 = 25.
Proof.
  unfold Range.percentile_of_95, Range.percentileofscore,
    flattened_rank, range_sample.
  cbn [length map concat app filter].
  rewrite (Rltb_true 90 95), (Rltb_false 100 95), (Rltb_false 96 95),
    (Rltb_false 97 95), (Rleb_true 90 95), (Rleb_false 100 95),
    (Rleb_false 96 95), (Rleb_false 97 95) by lra.
  cbn [length Nat.ltb Nat.leb Nat.add INR].
  split.
  - do 2 f_equal; [|f_equal]; field.
  - field.
Qed.

(** ** Zero volatility *)

Lemma prod_upto_exp_const (f : nat -> R) (a : R) (j : nat) :
  (forall k, (k <= j)%nat -> f k = exp a) ->
  prod_upto f j = exp (INR (S j) * a).
Proof.
  induction j as [|j IH]; intros Hf.
  - cbn [prod_upto]. rewrite (Hf 0%nat) by lia. f_equal. simpl. ring.
  - cbn [prod_upto]. rewrite IH by (intros k Hk; apply Hf; lia).
    rewrite (Hf (S j)) by lia. rewrite <- exp_plus. f_equal.
    rewrite (S_INR (S j)). ring.
Qed.

(** X1. With [sigma = 0] the paths do not depend on the draws: the entry of
    column [j] is the spot price grown at the rate [r] over [j + 1] steps of
    length [dt = Time / Time_steps]. *)
Theorem prices_deterministic_without_volatility (p : SimulationParameters)
  (draw : nat -> nat -> R) :
  valid_parameters p -> sigma p = 0 ->
  exists m : matrix,
    prices p draw = Ok m /\
    forall i j : nat,
      (i < Z.to_nat (simulations p))%nat ->
      (j < Z.to_nat (Time_steps p))%nat ->
      entry m i j
      = spot_price p
        * exp (risk_free_rate p * (INR (S j) * (Time p / IZR (Time_steps p)))).
Proof.
  intros (_ & _ & _ & _ & HN & HM) Hsigma.
  exists (path_matrix p draw).
  split; [apply prices_ok; lia|].
  intros i j Hi Hj.
  rewrite entry_path_matrix by assumption.
  f_equal.
  rewrite (prod_upto_exp_const _
             (risk_free_rate p * (Time p / IZR (Time_steps p)))).
  - f_equal. ring.
  - intros k _. rewrite Hsigma. f_equal. field.
    apply not_0_IZR. lia.
Qed.

(** The notebook's parameters with no volatility. *)
Lemma prices_deterministic_without_volatility_sample :
  exists m : matrix,
    prices {| spot_price := 100; strike_price := 105; Time := 1;
              risk_free_rate := 5 / 100; sigma := 0;
              simulations := 2; Time_steps := 3 |} sample_draw = Ok m /\
    entry m 1 2 = 100 * exp (5 / 100 * (INR 3 * (1 / 3))).
Proof.
  destruct (prices_deterministic_without_volatility
              {| spot_price := 100; strike_price := 105; Time := 1;
                 risk_free_rate := 5 / 100; sigma := 0;
                 simulations := 2; Time_steps := 3 |} sample_draw)
    as [m [Hm Hentry]].
  - unfold valid_parameters; simpl. repeat split; try lra; lia.
  - reflexivity.
  - exists m. split; [exact Hm|].
    apply (Hentry 1%nat 2%nat); simpl; lia.
Defined.

(** ** Lookback options: minima, prices, rows without columns *)

Ltac case_Rmin := unfold Rmin; destruct (Rle_dec _ _); try lra.

Lemma discount_pos (p : SimulationParameters) : 0 < discount p.
Proof. apply exp_pos. Qed.

Lemma fold_right_Rmin_is_min (a : vector) (x : R) :
  is_min (fold_right Rmin x a) (x :: a).
Proof.
  induction a as [|y ys [Hin Hlb]]; simpl.
  - split; [now left | intros z [<-|[]]; lra].
  - split.
    + unfold Rmin. destruct (Rle_dec _ _).
      * right. now left.
      * destruct Hin as [E|Hin]; [now left | now right; right].
    + assert (Hx : fold_right Rmin x ys <= x) by (apply Hlb; now left).
      intros z [<-|[<-|Hz]].
      * revert Hx. case_Rmin.
      * case_Rmin.
      * assert (fold_right Rmin x ys <= z) by (apply Hlb; now right).
        revert H. case_Rmin.
Qed.

Lemma row_min_is_min (row : vector) : row <> [] -> is_min (row_min row) row.
Proof.
  destruct row as [|x xs]; [contradiction|]. intros _.
  unfold row_min. cbn [hd].
  destruct (fold_right_Rmin_is_min (x :: xs) x) as [Hin Hlb].
  split.
  - destruct Hin as [E|Hin]; [rewrite <- E; now left | exact Hin].
  - intros z Hz. apply Hlb. now right.
Qed.

Lemma is_min_reflect (K m : R) (a : vector) :
  is_min m a -> is_max (K - m) (map (fun x => K - x) a).
Proof.
  intros [Hin Hlb]. split.
  - apply in_map_iff. now exists m.
  - intros y Hy. apply in_map_iff in Hy. destruct Hy as [x [<- Hx]].
    apply Hlb in Hx. lra.
Qed.

Lemma amax_reflect (K : R) (row : vector) :
  row <> [] -> Np.amax (map (fun x => K - x) row) = Ok (K - row_min row).
Proof.
  intros Hne. pose proof (row_min_is_min row Hne) as Hmin.
  destruct row as [|x xs]; [contradiction|].
  cbn [map Np.amax]. f_equal.
  eapply is_max_unique.
  - apply fold_left_Rmax_is_max.
  - apply (is_min_reflect K _ (x :: xs)), Hmin.
Qed.

Lemma last_In (row : vector) : row <> [] -> In (List.last row 0) row.
Proof.
  induction row as [|x xs IH]; [contradiction|]. intros _.
  destruct xs as [|y ys]; [now left|].
  right. apply IH. discriminate.
Qed.

Lemma Lookback_payoffs_put_ok (p : SimulationParameters) (prices : matrix) :
  Forall (fun row => row <> []) prices ->
  Lookback.payoffs_put p prices
  = Ok (map (fun row => Rmax 0 (strike_price p - row_min row)) prices).
Proof.
  intros Hne. unfold Lookback.payoffs_put.
  rewrite (mapM_ok _ (fun row => strike_price p - row_min row)).
  - cbn [bind]. unfold Np.maximum0. now rewrite map_map.
  - revert Hne. apply Forall_impl. intros row. apply amax_reflect.
Qed.

(** X2. On a matrix without empty rows the lookback put payoffs are computed
    and, row by row, equal [max(0, K - min(row))]; each is at least 0 and at
    least the payoff [max(0, K - final)] of a put on the final price. *)
Theorem lookback_put_payoffs_min (p : SimulationParameters) (prices : matrix) :
  Forall (fun row => row <> []) prices ->
  exists v : vector,
    Lookback.payoffs_put p prices = Ok v /\
    length v = length prices /\
    forall i : nat, (i < length prices)%nat ->
      nth i v 0 = Rmax 0 (strike_price p - row_min (nth i prices [])) /\
      0 <= nth i v 0 /\
      Rmax 0 (strike_price p - List.last (nth i prices []) 0) <= nth i v 0.
Proof.
  intros Hne.
  exists (map (fun row => Rmax 0 (strike_price p - row_min row)) prices).
  split; [now apply Lookback_payoffs_put_ok|].
  split; [apply length_map|].
  intros i Hi.
  rewrite (nth_map_in (A:=vector) _ prices i 0 []) by exact Hi.
  split; [reflexivity|]. split; [apply Rmax_0_nonneg|].
  apply Rmax_0_mono.
  assert (Hrow : nth i prices [] <> [])
    by (apply (proj1 (Forall_forall _ _) Hne); now apply nth_In).
  destruct (row_min_is_min _ Hrow) as [_ Hlb].
  pose proof (Hlb _ (last_In _ Hrow)). lra.
Qed.

Lemma lookback_put_payoffs_min_sample :
  Forall (fun row => row <> []) [[100; 110; 120]; [100; 90; 80]] /\
  exists v : vector,
    Lookback.payoffs_put sample_parameters [[100; 110; 120]; [100; 90; 80]]
    = Ok v /\
    length v = length [[100; 110; 120]; [100; 90; 80]] /\
    forall i : nat, (i < length [[100; 110; 120]; [100; 90; 80]])%nat ->
      nth i v 0
      = Rmax 0 (strike_price sample_parameters
                - row_min (nth i [[100; 110; 120]; [100; 90; 80]] [])) /\
      0 <= nth i v 0 /\
      Rmax 0 (strike_price sample_parameters
              - List.last (nth i [[100; 110; 120]; [100; 90; 80]] []) 0)
      <= nth i v 0.
Proof.
  split.
  - repeat constructor; discriminate.
  - apply (lookback_put_payoffs_min sample_parameters
             [[100; 110; 120]; [100; 90; 80]]).
    repeat constructor; discriminate.
Defined.

Lemma sum_map_le {A : Type} (f g : A -> R) (l : list A) :
  (forall x, In x l -> f x <= g x) ->
  Np.sum (map f l) <= Np.sum (map g l).
Proof.
  induction l as [|x xs IH]; intros H.
  - cbn [map]. lra.
  - cbn [map]. rewrite !sum_cons.
    assert (f x <= g x) by (apply H; now left).
    assert (Np.sum (map f xs) <= Np.sum (map g xs))
      by (apply IH; intros z Hz; apply H; now right).
    lra.
Qed.

Lemma sum_map_nonneg {A : Type} (f : A -> R) (l : list A) :
  (forall x, In x l -> 0 <= f x) -> 0 <= Np.sum (map f l).
Proof.
  intros H.
  replace 0 with (Np.sum (map (fun _ : A => 0) l)).
  - now apply sum_map_le.
  - induction l as [|x xs IH]; [reflexivity|].
    cbn [map]. rewrite sum_cons, IH; [ring|].
    intros z Hz. apply H. now right.
Qed.

Lemma Asian_payoffs_map (p : SimulationParameters) (prices : matrix) :
  Asian.payoffs p prices
  = map (fun row => Rmax 0 (Np.mean row - strike_price p)) prices.
Proof. unfold Asian.payoffs, Np.maximum0. apply map_map. Qed.



(** ** What the evaluators return, and when they raise *)

Lemma discount_spec (p : SimulationParameters) :
  discount p = exp (- (risk_free_rate p * Time p)).
Proof. unfold discount. f_equal. ring. Qed.

Lemma Barrier_option_price_ok (p : SimulationParameters) (B : R)
  (prices : matrix) :
  simulations p <> 0%Z ->
  Forall (fun row => row <> []) prices ->
  Barrier.Barrier_option_price p B prices
  = Ok (Np.sum (map (barrier_contribution B) prices) / IZR (simulations p)
        * discount p).
Proof.
  intros HN Hne. unfold Barrier.Barrier_option_price. cbv zeta.
  rewrite Barrier_total_ok by exact Hne. cbn [bind].
  destruct (Barrier.Barrier_rows _) as [|i rest]; [|reflexivity].
  unfold py_div.
  destruct (Z.eqb_spec (simulations p) 0) as [E|_];
    [contradiction | reflexivity].
Qed.

Lemma binaryoption_ok (p : SimulationParameters) (prices : matrix) :
  simulations p <> 0%Z ->
  Binary.binaryoption p prices
  = Ok (INR (length (filter (fun row => Rltb (strike_price p) (Np.mean row))
                            prices))
        / IZR (simulations p) * discount p).
Proof.
  intros HN. unfold Binary.binaryoption, Binary.binarypayoffs, py_div.
  destruct (Z.eqb_spec (simulations p) 0) as [E|_]; [contradiction|].
  cbn [bind]. now rewrite Binary_count.
Qed.

Lemma chooser_option_price_ok (p : SimulationParameters) (prices : matrix) :
  length prices = Z.to_nat (simulations p) ->
  Forall (fun row => row <> []) prices ->
  Chooser.chooser_option_price p prices
  = Ok (Rmax
          (Np.sum (map (fun row => Rmax 0 (List.last row 0 - strike_price p))
                       prices))
          (Np.sum (map (fun row => Rmax 0 (strike_price p - List.last row 0))
                       prices))
        / IZR (simulations p)).
Proof.
  intros Hlen Hne.
  unfold Chooser.chooser_option_price, Chooser.sum1, Chooser.sum2,
    Chooser.choosercallpayoffs, Chooser.chooserputpayoffs.
  rewrite <- Hlen.
  rewrite (sum_last_payoffs (fun x => x - strike_price p)) by exact Hne.
  rewrite (sum_last_payoffs (fun x => strike_price p - x)) by exact Hne.
  reflexivity.
Qed.

Lemma shape_no_columns (n : nat) (a : matrix) :
  (1 <= n)%nat -> shape n 0 a -> exists rest, a = [] :: rest.
Proof.
  intros Hn [Hlen Hrows].
  destruct a as [|row rest]; [simpl in Hlen; lia|].
  exists rest. f_equal.
  inversion Hrows as [|? ? Hrow _]; subst.
  now apply length_zero_iff_nil.
Qed.

(** X4. On a matrix with at least one row and no column, the lookback cells
    stop with a [ValueError] (the maximum of an empty row), and the barrier
    cell, and the chooser cell when [simulations >= 1], stop with an
    [IndexError] (the last element of an empty row). *)
Theorem evaluators_raise_without_columns (p : SimulationParameters)
  (Barrier_price : R) (n : nat) (prices : matrix) :
  (1 <= n)%nat -> shape n 0 prices ->
  Lookback.lookbackpayoffofcall p prices = Err ValueError /\
  Lookback.lookbackpayoffofput p prices = Err ValueError /\
  Barrier.Barrier_option_price p Barrier_price prices = Err IndexError /\
  ((1 <= simulations p)%Z ->
   Chooser.chooser_option_price p prices = Err IndexError).
Proof.
  intros Hn Hshape.
  destruct (shape_no_columns n prices Hn Hshape) as [rest ->].
  split; [reflexivity|]. split; [reflexivity|]. split.
  - unfold Barrier.Barrier_option_price, Barrier.Barrier_total,
      Barrier.Barrier_rows. cbv zeta.
    cbn [Barrier.payoffs map Np.maximum0 length seq filter nth].
    replace (Np.nonzero (Np.prod [])) with true; [reflexivity|].
    unfold Np.nonzero, Np.prod. cbn [fold_left].
    destruct (Req_dec_T 1 0); [lra | reflexivity].
  - intros HN.
    unfold Chooser.chooser_option_price, Chooser.sum1.
    destruct (Z.to_nat (simulations p)) as [|k] eqn:E; [lia|].
    reflexivity.
Qed.

Lemma evaluators_raise_without_columns_sample :
  (1 <= 2)%nat /\ shape 2 0 [[]; []] /\
  Lookback.lookbackpayoffofcall sample_parameters [[]; []] = Err ValueError /\
  Lookback.lookbackpayoffofput sample_parameters [[]; []] = Err ValueError /\
  Barrier.Barrier_option_price sample_parameters 99 [[]; []] = Err IndexError /\
  ((1 <= simulations sample_parameters)%Z ->
   Chooser.chooser_option_price sample_parameters [[]; []] = Err IndexError).
Proof.
  assert (Hshape : shape 2 0 [[]; []])
    by (split; [reflexivity | repeat constructor]).
  split; [lia|].
  split; [exact Hshape|].
  apply (evaluators_raise_without_columns sample_parameters 99 2 [[]; []]).
  - lia.
  - exact Hshape.
Defined.

(** X5. With [simulations = 0] (and [Time_steps >= 1]) the first cell raises
    nothing and returns the matrix without rows; on it the binary cell and
    the barrier cell stop with a [ZeroDivisionError]: both divide a Python
    integer 0 by [simulations]. *)
Theorem zero_simulations_divide_by_zero (p : SimulationParameters)
  (draw : nat -> nat -> R) (Barrier_price : R) :
  simulations p = 0%Z -> (1 <= Time_steps p)%Z ->
  prices p draw = Ok [] /\
  Binary.binaryoption p [] = Err ZeroDivisionError /\
  Barrier.Barrier_option_price p Barrier_price [] = Err ZeroDivisionError.
Proof.
  intros HN HM. split; [|split].
  - rewrite prices_ok by lia. unfold path_matrix, ratio_matrix.
    rewrite HN. reflexivity.
  - unfold Binary.binaryoption, Binary.binarypayoffs, py_div.
    rewrite HN. reflexivity.
  - unfold Barrier.Barrier_option_price, py_div. cbv zeta.
    cbn. rewrite HN. reflexivity.
Qed.

Lemma zero_simulations_divide_by_zero_sample :
  exists p : SimulationParameters,
    simulations p = 0%Z /\ (1 <= Time_steps p)%Z /\
    prices p sample_draw = Ok [] /\
    Binary.binaryoption p [] = Err ZeroDivisionError /\
    Barrier.Barrier_option_price p 99 [] = Err ZeroDivisionError.
Proof.
  exists {| spot_price := 100; strike_price := 105; Time := 1;
            risk_free_rate := 5 / 100; sigma := 2 / 10;
            simulations := 0; Time_steps := 3 |}.
  split; [reflexivity|].
  split; [simpl; lia|].
  apply (zero_simulations_divide_by_zero
           {| spot_price := 100; strike_price := 105; Time := 1;
              risk_free_rate := 5 / 100; sigma := 2 / 10;
              simulations := 0; Time_steps := 3 |} sample_draw 99).
  - reflexivity.
  - simpl; lia.
Defined.

(** X6. For valid parameters and any draws no cell raises: the path matrix
    exists and, on it, the lookback, barrier, binary and chooser prices are
    all computed. *)
Theorem valid_parameters_run_every_cell (p : SimulationParameters)
  (draw : nat -> nat -> R) (Barrier_price : R) :
  valid_parameters p ->
  exists (m : matrix) (call put barrier binary chooser : R),
    prices p draw = Ok m /\
    Lookback.lookbackpayoffofcall p m = Ok call /\
    Lookback.lookbackpayoffofput p m = Ok put /\
    Barrier.Barrier_option_price p Barrier_price m = Ok barrier /\
    Binary.binaryoption p m = Ok binary /\
    Chooser.chooser_option_price p m = Ok chooser.
Proof.
  intros (_ & _ & _ & _ & HN & HM).
  pose proof (shape_path_matrix p draw) as Hshape.
  assert (Hne : Forall (fun row => row <> []) (path_matrix p draw))
    by (apply (shape_nonempty (Z.to_nat (simulations p))
                 (Z.to_nat (Time_steps p))); [lia | exact Hshape]).
  exists (path_matrix p draw).
  do 5 eexists.
  split; [apply prices_ok; lia|].
  split; [unfold Lookback.lookbackpayoffofcall;
          rewrite Lookback_payoffs_ok by exact Hne; reflexivity|].
  split; [unfold Lookback.lookbackpayoffofput;
          rewrite Lookback_payoffs_put_ok by exact Hne; reflexivity|].
  split; [apply Barrier_option_price_ok; [lia | exact Hne]|].
  split; [apply binaryoption_ok; lia|].
  apply chooser_option_price_ok; [apply Hshape | exact Hne].
Qed.

Lemma valid_parameters_run_every_cell_sample :
  valid_parameters sample_parameters /\
  exists (m : matrix) (call put barrier binary chooser : R),
    prices sample_parameters sample_draw = Ok m /\
    Lookback.lookbackpayoffofcall sample_parameters m = Ok call /\
    Lookback.lookbackpayoffofput sample_parameters m = Ok put /\
    Barrier.Barrier_option_price sample_parameters 99 m = Ok barrier /\
    Binary.binaryoption sample_parameters m = Ok binary /\
    Chooser.chooser_option_price sample_parameters m = Ok chooser.
Proof.
  split.
  - unfold valid_parameters, sample_parameters; simpl.
    repeat split; try lra; lia.
  - apply (valid_parameters_run_every_cell sample_parameters sample_draw 99).
    unfold valid_parameters, sample_parameters; simpl.
    repeat split; try lra; lia.
Defined.

(** ** Barrier option: bounds and the level of the barrier *)

Lemma barrier_contribution_bounds (B : R) (row : vector) :
  0 <= barrier_contribution B row <= Rmax 0 (List.last row 0 - B).
Proof.
  unfold barrier_contribution.
  pose proof (Rmax_0_nonneg (List.last row 0 - B)).
  destruct (knocked_outb B row); lra.
Qed.

Lemma barrier_contribution_antitone (B B' : R) (row : vector) :
  B <= B' -> barrier_contribution B' row <= barrier_contribution B row.
Proof.
  intros HB. unfold barrier_contribution.
  destruct (knocked_outb B' row) eqn:E'.
  - destruct (knocked_outb B row); [lra | apply Rmax_0_nonneg].
  - destruct (knocked_outb B row) eqn:E.
    + apply knocked_outb_spec, knocked_out_touch in E.
      destruct E as [x [Hin Hx]].
      assert (knocked_outb B' row = true).
      { apply knocked_outb_spec, knocked_out_touch. exists x. split; [easy|lra]. }
      congruence.
    + apply Rmax_0_mono. lra.
Qed.

Lemma scale_le (N d x y : R) :
  0 < N -> 0 < d -> x <= y -> x / N * d <= y / N * d.
Proof.
  intros HN Hd Hxy.
  assert (0 < / N) by (now apply Rinv_0_lt_compat).
  unfold Rdiv. apply Rmult_le_compat_r; [lra|].
  apply Rmult_le_compat_r; lra.
Qed.

(** X7. On an [N] by [M] path matrix ([N = simulations >= 1], [M >= 1]) the
    barrier price is at least 0 and at most the discounted average, over the
    simulations, of [max(0, final - B)]: knocking out never adds value to
    the call struck at the barrier. *)
Theorem Barrier_option_price_bounds (p : SimulationParameters)
  (Barrier_price : R) (m : nat) (prices : matrix) :
  (1 <= simulations p)%Z -> (1 <= m)%nat ->
  shape (Z.to_nat (simulations p)) m prices ->
  exists barrier : R,
    Barrier.Barrier_option_price p Barrier_price prices = Ok barrier /\
    0 <= barrier /\
    barrier
    <= Np.sum (map (fun row => Rmax 0 (List.last row 0 - Barrier_price))
                   prices)
       / IZR (simulations p) * exp (- (risk_free_rate p * Time p)).
Proof.
  intros HN Hm Hshape.
  pose proof (shape_nonempty _ _ _ Hm Hshape) as Hne.
  assert (HNpos : 0 < IZR (simulations p)) by (apply IZR_lt; lia).
  pose proof (discount_pos p) as Hd.
  eexists. split; [apply Barrier_option_price_ok; [lia | exact Hne]|].
  rewrite <- discount_spec. split.
  - replace 0 with (0 / IZR (simulations p) * discount p)
      by (unfold Rdiv; ring).
    apply scale_le; try assumption.
    apply sum_map_nonneg. intros row _. apply barrier_contribution_bounds.
  - apply scale_le; try assumption.
    apply sum_map_le. intros row _. apply barrier_contribution_bounds.
Qed.

Lemma Barrier_option_price_bounds_sample :
  (1 <= simulations sample_parameters)%Z /\ (1 <= 3)%nat /\
  shape (Z.to_nat (simulations sample_parameters)) 3
        [[100; 110; 120]; [100; 90; 80]] /\
  exists barrier : R,
    Barrier.Barrier_option_price sample_parameters 99
      [[100; 110; 120]; [100; 90; 80]] = Ok barrier /\
    0 <= barrier /\
    barrier
    <= Np.sum (map (fun row => Rmax 0 (List.last row 0 - 99))
                   [[100; 110; 120]; [100; 90; 80]])
       / IZR (simulations sample_parameters)
       * exp (- (risk_free_rate sample_parameters * Time sample_parameters)).
Proof.
  assert (Hshape : shape (Z.to_nat (simulations sample_parameters)) 3
                     [[100; 110; 120]; [100; 90; 80]])
    by (split; [reflexivity | repeat constructor]).
  split; [simpl; lia|].
  split; [lia|].
  split; [exact Hshape|].
  apply (Barrier_option_price_bounds sample_parameters 99 3
           [[100; 110; 120]; [100; 90; 80]]).
  - simpl; lia.
  - lia.
  - exact Hshape.
Defined.

(** X8. Raising the barrier never raises the price: on an [N] by [M] path
    matrix, for barrier levels [B <= B'], the price at [B'] is at most the
    price at [B]. *)
Theorem Barrier_option_price_antitone (p : SimulationParameters)
  (B B' : R) (m : nat) (prices : matrix) :
  (1 <= simulations p)%Z -> (1 <= m)%nat ->
  shape (Z.to_nat (simulations p)) m prices ->
  B <= B' ->
  exists low high : R,
    Barrier.Barrier_option_price p B prices = Ok low /\
    Barrier.Barrier_option_price p B' prices = Ok high /\
    high <= low.
Proof.
  intros HN Hm Hshape HB.
  pose proof (shape_nonempty _ _ _ Hm Hshape) as Hne.
  assert (HNpos : 0 < IZR (simulations p)) by (apply IZR_lt; lia).
  pose proof (discount_pos p) as Hd.
  do 2 eexists.
  split; [apply Barrier_option_price_ok; [lia | exact Hne]|].
  split; [apply Barrier_option_price_ok; [lia | exact Hne]|].
  apply scale_le; try assumption.
  apply sum_map_le. intros row _. now apply barrier_contribution_antitone.
Qed.

Lemma Barrier_option_price_antitone_sample :
  (1 <= simulations sample_parameters)%Z /\ (1 <= 3)%nat /\
  shape (Z.to_nat (simulations sample_parameters)) 3
        [[100; 110; 120]; [100; 90; 80]] /\
  99 <= 105 /\
  exists low high : R,
    Barrier.Barrier_option_price sample_parameters 99
      [[100; 110; 120]; [100; 90; 80]] = Ok low /\
    Barrier.Barrier_option_price sample_parameters 105
      [[100; 110; 120]; [100; 90; 80]] = Ok high /\
    high <= low.
Proof.
  assert (Hshape : shape (Z.to_nat (simulations sample_parameters)) 3
                     [[100; 110; 120]; [100; 90; 80]])
    by (split; [reflexivity | repeat constructor]).
  split; [simpl; lia|].
  split; [lia|].
  split; [exact Hshape|].
  split; [lra|].
  apply (Barrier_option_price_antitone sample_parameters 99 105 3
           [[100; 110; 120]; [100; 90; 80]]).
  - simpl; lia.
  - lia.
  - exact Hshape.
  - lra.
Defined.

Lemma sum_map_minus_const {A : Type} (f : A -> R) (c : R) (l : list A) :
  Np.sum (map (fun x => f x - c) l) = Np.sum (map f l) - INR (length l) * c.
Proof.
  induction l as [|x xs IH].
  - cbn [map length INR]. rewrite sum_nil. ring.
  - cbn [map]. rewrite !sum_cons, IH.
    change (length (x :: xs)) with (S (length xs)). rewrite S_INR. ring.
Qed.

(** ** Chooser option: which side is chosen *)

Lemma sum_map_minus {A : Type} (f g : A -> R) (l : list A) :
  Np.sum (map (fun x => f x - g x) l) = Np.sum (map f l) - Np.sum (map g l).
Proof.
  induction l as [|x xs IH].
  - cbn [map]. rewrite sum_nil. ring.
  - cbn [map]. rewrite !sum_cons, IH. ring.
Qed.

Lemma chooser_sums_difference (K : R) (prices : matrix) :
  Np.sum (map (fun row => Rmax 0 (List.last row 0 - K)) prices)
  - Np.sum (map (fun row => Rmax 0 (K - List.last row 0)) prices)
  = Np.sum (map (fun row => List.last row 0) prices)
    - INR (length prices) * K.
Proof.
  rewrite <- sum_map_minus, <- sum_map_minus_const.
  f_equal. apply map_ext. intros row.
  unfold Rmax. do 2 destruct (Rle_dec _ _); lra.
Qed.

(** X11. On an [N] by [M] path matrix the sum of the call payoffs minus the
    sum of the put payoffs is the sum of the final prices minus [N] times the
    strike; so the chooser price is the average call payoff when the average
    final price is at least the strike, and the average put payoff when it
    is at most the strike. *)
Theorem chooser_option_price_side (p : SimulationParameters)
  (m : nat) (prices : matrix) :
  (1 <= simulations p)%Z -> (1 <= m)%nat ->
  shape (Z.to_nat (simulations p)) m prices ->
  (strike_price p
   <= Np.sum (map (fun row => List.last row 0) prices) / IZR (simulations p) ->
   Chooser.chooser_option_price p prices
   = Ok (Np.sum (map (fun row => Rmax 0 (List.last row 0 - strike_price p))
                     prices)
         / IZR (simulations p))) /\
  (Np.sum (map (fun row => List.last row 0) prices) / IZR (simulations p)
   <= strike_price p ->
   Chooser.chooser_option_price p prices
   = Ok (Np.sum (map (fun row => Rmax 0 (strike_price p - List.last row 0))
                     prices)
         / IZR (simulations p))).
Proof.
  intros HN Hm Hshape.
  pose proof (shape_nonempty _ _ _ Hm Hshape) as Hne.
  destruct Hshape as [Hlen _].
  assert (HNR : INR (length prices) = IZR (simulations p))
    by (rewrite Hlen; apply INR_to_nat; lia).
  assert (HNpos : 0 < IZR (simulations p)) by (apply IZR_lt; lia).
  pose proof (chooser_sums_difference (strike_price p) prices) as Hdiff.
  rewrite HNR in Hdiff.
  rewrite chooser_option_price_ok by assumption.
  set (s1 := Np.sum (map (fun row => Rmax 0 (List.last row 0 - strike_price p))
                         prices)) in *.
  set (s2 := Np.sum (map (fun row => Rmax 0 (strike_price p - List.last row 0))
                         prices)) in *.
  set (s := Np.sum (map (fun row => List.last row 0) prices)) in *.
  assert (Hs : s = s / IZR (simulations p) * IZR (simulations p))
    by (field; lra).
  split; intros HK; do 2 f_equal.
  - apply Rmax_left.
    assert (strike_price p * IZR (simulations p)
            <= s / IZR (simulations p) * IZR (simulations p))
      by (apply Rmult_le_compat_r; lra).
    lra.
  - apply Rmax_right.
    assert (s / IZR (simulations p) * IZR (simulations p)
            <= strike_price p * IZR (simulations p))
      by (apply Rmult_le_compat_r; lra).
    lra.
Qed.

Lemma chooser_option_price_side_sample :
  (1 <= simulations sample_parameters)%Z /\ (1 <= 3)%nat /\
  shape (Z.to_nat (simulations sample_parameters)) 3
        [[100; 110; 120]; [100; 90; 80]] /\
  (Np.sum (map (fun row => List.last row 0) [[100; 110; 120]; [100; 90; 80]])
   / IZR (simulations sample_parameters)
   <= strike_price sample_parameters ->
   Chooser.chooser_option_price sample_parameters
     [[100; 110; 120]; [100; 90; 80]]
   = Ok (Np.sum (map (fun row =>
                        Rmax 0 (strike_price sample_parameters
                                - List.last row 0))
                     [[100; 110; 120]; [100; 90; 80]])
         / IZR (simulations sample_parameters))).
Proof.
  assert (Hshape : shape (Z.to_nat (simulations sample_parameters)) 3
                     [[100; 110; 120]; [100; 90; 80]])
    by (split; [reflexivity | repeat constructor]).
  split; [simpl; lia|].
  split; [lia|].
  split; [exact Hshape|].
  apply (chooser_option_price_side sample_parameters 3
           [[100; 110; 120]; [100; 90; 80]]).
  - simpl; lia.
  - lia.
  - exact Hshape.
Defined.

(** ** Binary option: a discounted frequency *)

(** X12. On an [N] by [M] path matrix the binary option price lies between 0
    and the discount factor [exp (- r T)]. *)
Theorem binaryoption_bounds (p : SimulationParameters) (m : nat)
  (prices : matrix) :
  (1 <= simulations p)%Z -> (1 <= m)%nat ->
  shape (Z.to_nat (simulations p)) m prices ->
  exists binary : R,
    Binary.binaryoption p prices = Ok binary /\
    0 <= binary <= exp (- (risk_free_rate p * Time p)).
Proof.
  intros HN _ [Hlen _].
  assert (HNR : INR (length prices) = IZR (simulations p))
    by (rewrite Hlen; apply INR_to_nat; lia).
  assert (HNpos : 0 < IZR (simulations p)) by (apply IZR_lt; lia).
  pose proof (discount_pos p) as Hd.
  eexists. split; [apply binaryoption_ok; lia|].
  rewrite <- discount_spec.
  set (k := length (filter _ prices)).
  assert (Hk0 : 0 <= INR k) by apply pos_INR.
  assert (HkN : INR k <= IZR (simulations p)).
  { rewrite <- HNR. apply le_INR. apply filter_length_le. }
  split.
  - replace 0 with (0 / IZR (simulations p) * discount p)
      by (unfold Rdiv; ring).
    apply scale_le; assumption.
  - replace (discount p)
      with (IZR (simulations p) / IZR (simulations p) * discount p) at 2
      by (field; lra).
    apply scale_le; assumption.
Qed.

Lemma binaryoption_bounds_sample :
  (1 <= simulations sample_parameters)%Z /\ (1 <= 3)%nat /\
  shape (Z.to_nat (simulations sample_parameters)) 3
        [[100; 110; 120]; [100; 90; 80]] /\
  exists binary : R,
    Binary.binaryoption sample_parameters [[100; 110; 120]; [100; 90; 80]]
    = Ok binary /\
    0 <= binary
    <= exp (- (risk_free_rate sample_parameters * Time sample_parameters)).
Proof.
  assert (Hshape : shape (Z.to_nat (simulations sample_parameters)) 3
                     [[100; 110; 120]; [100; 90; 80]])
    by (split; [reflexivity | repeat constructor]).
  split; [simpl; lia|].
  split; [lia|].
  split; [exact Hshape|].
  apply (binaryoption_bounds sample_parameters 3
           [[100; 110; 120]; [100; 90; 80]]).
  - simpl; lia.
  - lia.
  - exact Hshape.
Defined.

(** ** The variance cell against the sample variance *)

Lemma sum_squares_recentre (m c : R) (a : vector) :
  Np.sum (map (fun x => (x - c) ^ 2) a)
  = Np.sum (map (fun x => (x - m) ^ 2) a)
    + 2 * (m - c) * (Np.sum a - INR (length a) * m)
    + INR (length a) * (m - c) ^ 2.
Proof.
  induction a as [|x xs IH].
  - cbn [map length INR]. rewrite sum_nil. ring.
  - cbn [map]. rewrite !sum_cons, IH.
    change (length (x :: xs)) with (S (length xs)). rewrite S_INR. ring.
Qed.

(** X13. For a payoff vector of length [N = simulations >= 2] the variance
    the cell computes is the sample variance of the payoffs (squared
    distances from their mean, over [N - 1]) plus [N / (N - 1)] times the
    square of [mean * (1 - exp (- r T))]; it is never below the sample
    variance. *)
Theorem variance_decomposition (p : SimulationParameters) (payoffs : vector) :
  (2 <= simulations p)%Z ->
  length payoffs = Z.to_nat (simulations p) ->
  Asian.variance p payoffs
  = Np.sum (map (fun x => (x - Np.mean payoffs) ^ 2) payoffs)
    / (IZR (simulations p) - 1)
    + IZR (simulations p) / (IZR (simulations p) - 1)
      * (Np.mean payoffs * (1 - exp (- (risk_free_rate p * Time p)))) ^ 2 /\
  Np.sum (map (fun x => (x - Np.mean payoffs) ^ 2) payoffs)
  / (IZR (simulations p) - 1)
  <= Asian.variance p payoffs.
Proof.
  intros HN Hlen.
  assert (HNR : INR (length payoffs) = IZR (simulations p))
    by (rewrite Hlen; apply INR_to_nat; lia).
  assert (H2 : 2 <= IZR (simulations p)) by (apply IZR_le; exact HN).
  assert (Heq : Asian.variance p payoffs
    = Np.sum (map (fun x => (x - Np.mean payoffs) ^ 2) payoffs)
      / (IZR (simulations p) - 1)
      + IZR (simulations p) / (IZR (simulations p) - 1)
        * (Np.mean payoffs * (1 - exp (- (risk_free_rate p * Time p)))) ^ 2).
  { unfold Asian.variance, Asian.var_matrix, Asian.Asian_Option_call_price.
    rewrite (sum_squares_recentre (Np.mean payoffs)).
    rewrite discount_spec, minus_IZR, HNR.
    replace (Np.sum payoffs - IZR (simulations p) * Np.mean payoffs) with 0
      by (unfold Np.mean; rewrite HNR; field; lra).
    field. lra. }
  split; [exact Heq|].
  rewrite Heq.
  assert (0 <= IZR (simulations p) / (IZR (simulations p) - 1)
               * (Np.mean payoffs
                  * (1 - exp (- (risk_free_rate p * Time p)))) ^ 2).
  { apply Rmult_le_pos.
    - apply Rmult_le_pos; [lra|].
      apply Rlt_le, Rinv_0_lt_compat. lra.
    - apply pow2_ge_0. }
  lra.
Qed.

Lemma variance_decomposition_sample :
  (2 <= simulations sample_parameters)%Z /\
  length [10; 25] = Z.to_nat (simulations sample_parameters) /\
  Np.sum (map (fun x => (x - Np.mean [10; 25]) ^ 2) [10; 25])
  / (IZR (simulations sample_parameters) - 1)
  <= Asian.variance sample_parameters [10; 25].
Proof.
  split; [simpl; lia|].
  split; [reflexivity|].
  apply (variance_decomposition sample_parameters [10; 25]).
  - simpl; lia.
  - reflexivity.
Defined.

(** ** Range statistics: the values [percentileofscore] returns *)

Lemma filter_length_implies {A : Type} (f g : A -> bool) (l : list A) :
  (forall x, f x = true -> g x = true) ->
  (length (filter f l) <= length (filter g l))%nat.
Proof.
  intros H. induction l as [|x xs IH]; [apply Nat.le_refl|].
  cbn [filter]. destruct (f x) eqn:E.
  - rewrite (H x E). simpl. lia.
  - destruct (g x); simpl; lia.
Qed.

Lemma Rltb_Rleb (x y : R) : Rltb x y = true -> Rleb x y = true.
Proof.
  unfold Rltb, Rleb. destruct (Rlt_dec x y), (Rle_dec x y);
    try reflexivity; try discriminate. lra.
Qed.

Lemma percentileofscore_rows (a : matrix) (score : R) :
  a <> [] ->
  Range.percentileofscore a score
  = Some (map (fun row =>
                 let left := length (filter (fun x => Rltb x score) row) in
                 let right := length (filter (fun x => Rleb x score) row) in
                 let plus1 := if (left <? right)%nat then 1%nat else 0%nat in
                 INR (left + right + plus1) * (50 / INR (length a))) a).
Proof. destruct a; [contradiction | reflexivity]. Qed.

(** X14. On an [n] by [m] matrix with [n >= 1], [percentileofscore] returns
    [n] values, one per row, and each lies between 0 and [100 * m / n]. *)
Theorem percentileofscore_one_value_per_row (a : matrix) (score : R)
  (n m : nat) :
  (1 <= n)%nat -> shape n m a ->
  exists v : vector,
    Range.percentileofscore a score = Some v /\
    length v = n /\
    Forall (fun x => 0 <= x <= 100 * INR m / INR n) v.
Proof.
  intros Hn [Hlen Hrows].
  assert (Hnpos : 0 < INR n) by (apply lt_0_INR; lia).
  rewrite percentileofscore_rows
    by (intros E; rewrite E in Hlen; simpl in Hlen; lia).
  rewrite Hlen.
  eexists. split; [reflexivity|].
  split; [now rewrite length_map|].
  rewrite Forall_map. revert Hrows. apply Forall_impl.
  intros row Hrow.
  set (left := length (filter (fun x => Rltb x score) row)).
  set (right := length (filter (fun x => Rleb x score) row)).
  assert (Hlr : (left <= right)%nat)
    by (apply filter_length_implies; intros x; apply Rltb_Rleb).
  assert (Hrm : (right <= m)%nat)
    by (rewrite <- Hrow; apply filter_length_le).
  assert (Hcount : (left + right + (if (left <? right)%nat then 1 else 0)
                    <= 2 * m)%nat).
  { destruct (Nat.ltb_spec left right); lia. }
  apply le_INR in Hcount. rewrite mult_INR in Hcount.
  change (INR 2) with 2 in Hcount.
  set (c := INR (left + right + (if (left <? right)%nat then 1 else 0))) in *.
  assert (Hc0 : 0 <= c) by apply pos_INR.
  assert (Hinv : 0 < / INR n) by (now apply Rinv_0_lt_compat).
  unfold Rdiv. split.
  - apply Rmult_le_pos; [exact Hc0|]. apply Rmult_le_pos; lra.
  - replace (100 * INR m * / INR n) with (2 * INR m * (50 * / INR n)) by ring.
    apply Rmult_le_compat_r; [|exact Hcount].
    apply Rmult_le_pos; lra.
Qed.

Lemma percentileofscore_one_value_per_row_sample :
  (1 <= 2)%nat /\ shape 2 2 range_sample /\
  exists v : vector,
    Range.percentileofscore range_sample 95 = Some v /\
    length v = 2%nat /\
    Forall (fun x => 0 <= x <= 100 * INR 2 / INR 2) v.
Proof.
  assert (Hshape : shape 2 2 range_sample)
    by (split; [reflexivity | repeat constructor]).
  split; [lia|].
  split; [exact Hshape|].
  apply (percentileofscore_one_value_per_row range_sample 95 2 2).
  - lia.
  - exact Hshape.
Defined.

(** ** Percentiles: sorting and interpolation *)

Lemma In_insert (x y : R) (a : vector) :
  In x (Percentile.insert y a) <-> x = y \/ In x a.
Proof.
  induction a as [|z zs IH]; simpl.
  - intuition.
  - destruct (Rleb y z); simpl; [intuition|].
    rewrite IH. intuition.
Qed.

Lemma In_sort (x : R) (a : vector) : In x (Percentile.sort a) <-> In x a.
Proof.
  induction a as [|y ys IH]; simpl; [reflexivity|].
  rewrite In_insert, IH. intuition.
Qed.

Lemma length_insert (x : R) (a : vector) :
  length (Percentile.insert x a) = S (length a).
Proof.
  induction a as [|y ys IH]; simpl; [reflexivity|].
  destruct (Rleb x y); simpl; [reflexivity | now rewrite IH].
Qed.

Lemma length_sort (a : vector) : length (Percentile.sort a) = length a.
Proof.
  induction a as [|y ys IH]; simpl; [reflexivity|].
  now rewrite length_insert, IH.
Qed.

Lemma insert_sorted (x : R) (a : vector) :
  StronglySorted Rle a -> StronglySorted Rle (Percentile.insert x a).
Proof.
  induction 1 as [|y ys Hs IH Hall]; simpl.
  - constructor; constructor.
  - unfold Rleb. destruct (Rle_dec x y) as [Hxy|Hxy].
    + constructor; [now constructor|].
      constructor; [exact Hxy|].
      revert Hall. apply Forall_impl. intros z Hz. lra.
    + constructor; [exact IH|].
      apply Forall_forall. intros z Hz. apply In_insert in Hz.
      destruct Hz as [->|Hz]; [lra|].
      apply (proj1 (Forall_forall _ _) Hall). exact Hz.
Qed.

Lemma sort_sorted (a : vector) : StronglySorted Rle (Percentile.sort a).
Proof.
  induction a as [|y ys IH]; simpl; [constructor | now apply insert_sorted].
Qed.

Lemma sorted_nth_le (a : vector) :
  StronglySorted Rle a ->
  forall i j, (i <= j < length a)%nat -> nth i a 0 <= nth j a 0.
Proof.
  induction 1 as [|y ys Hs IH Hall]; intros i j Hij; simpl in Hij; [lia|].
  destruct i as [|i], j as [|j]; cbn [nth]; try lia.
  - lra.
  - apply (proj1 (Forall_forall _ _) Hall). apply nth_In. lia.
  - apply IH. lia.
Qed.

Lemma sort_first_is_min (a : vector) :
  a <> [] -> is_min (nth 0 (Percentile.sort a) 0) a.
Proof.
  intros Hne.
  assert (Hlen : (0 < length (Percentile.sort a))%nat)
    by (rewrite length_sort; destruct a; [contradiction | simpl; lia]).
  split.
  - apply In_sort. now apply nth_In.
  - intros x Hx. apply In_sort in Hx.
    destruct (In_nth _ _ 0 Hx) as [j [Hj <-]].
    apply sorted_nth_le; [apply sort_sorted | lia].
Qed.

Lemma sort_last_is_max (a : vector) :
  a <> [] ->
  is_max (nth (length (Percentile.sort a) - 1) (Percentile.sort a) 0) a.
Proof.
  intros Hne.
  assert (Hlen : (0 < length (Percentile.sort a))%nat)
    by (rewrite length_sort; destruct a; [contradiction | simpl; lia]).
  split.
  - apply In_sort. apply nth_In. lia.
  - intros x Hx. apply In_sort in Hx.
    destruct (In_nth _ _ 0 Hx) as [j [Hj <-]].
    apply sorted_nth_le; [apply sort_sorted | lia].
Qed.

Lemma is_min_unique_holder (a : vector) (m m' : R) :
  is_min m a -> is_min m' a -> m = m'.
Proof.
  intros [Hin Hlb] [Hin' Hlb'].
  apply Rle_antisym; [apply Hlb, Hin' | apply Hlb', Hin].
Qed.

Lemma percentile_in_range (q : R) :
  0 <= q <= 100 ->
  Rltb q 0 || Rltb 100 q = false.
Proof.
  intros Hq. rewrite (Rltb_false q 0), (Rltb_false 100 q) by lra. reflexivity.
Qed.

(** X15. For a matrix with at least one entry and a percentile [q] between 0
    and 100, [np.percentile] returns one price level, and the level lies
    between the smallest and the largest entry of the matrix; percentile 0 is
    the smallest entry and percentile 100 the largest.  A [q] below 0 or
    above 100 is a [ValueError]. *)
Theorem percentile_between_extremes (a : matrix) (q lo hi : R) :
  is_min lo (concat a) -> is_max hi (concat a) ->
  (0 <= q <= 100 ->
   exists level : R,
     Percentile.percentile a q = Ok level /\ lo <= level <= hi) /\
  Percentile.percentile a 0 = Ok lo /\
  Percentile.percentile a 100 = Ok hi /\
  (q < 0 \/ 100 < q -> Percentile.percentile a q = Err ValueError).
Proof.
  intros Hlo Hhi.
  assert (Hne : concat a <> [])
    by (destruct Hlo as [Hin _]; intros E; rewrite E in Hin; contradiction).
  set (arr := Percentile.sort (concat a)).
  assert (Hbounds : forall i, (i < length arr)%nat -> lo <= nth i arr 0 <= hi).
  { intros i Hi.
    assert (Hin : In (nth i arr 0) (concat a))
      by (apply In_sort; now apply nth_In).
    split; [apply Hlo, Hin | apply Hhi, Hin]. }
  assert (Hlen : (0 < length arr)%nat).
  { unfold arr. rewrite length_sort.
    destruct (concat a); [contradiction | simpl; lia]. }
  assert (Hn1 : INR (length arr) - 1 = INR (length arr - 1)).
  { rewrite minus_INR by lia. reflexivity. }
  split; [|split; [|split]].
  - intros Hq. unfold Percentile.percentile.
    rewrite percentile_in_range by exact Hq. cbv zeta. fold arr.
    unfold Rleb at 1. destruct (Rle_dec _ _) as [Habove|Hbelow].
    + eexists. split; [reflexivity|]. apply Hbounds. lia.
    + eexists. split; [reflexivity|].
      set (vi := (INR (length arr) - 1) * (q / 100)) in *.
      assert (Hvi0 : 0 <= vi).
      { unfold vi. apply Rmult_le_pos; [|lra].
        rewrite Hn1. apply pos_INR. }
      destruct (base_Int_part vi) as [Hfloor1 Hfloor2].
      assert (Hz : (0 <= Int_part vi)%Z).
      { apply Z.lt_succ_r. apply lt_IZR. rewrite succ_IZR. lra. }
      assert (Hprev : INR (Z.to_nat (Int_part vi)) = IZR (Int_part vi))
        by (now apply INR_to_nat).
      assert (Hnext : (S (Z.to_nat (Int_part vi)) < length arr)%nat).
      { apply INR_lt. rewrite S_INR, Hprev. lra. }
      destruct (Hbounds (Z.to_nat (Int_part vi))) as [Hp1 Hp2]; [lia|].
      destruct (Hbounds (S (Z.to_nat (Int_part vi)))) as [Hs1 Hs2];
        [exact Hnext|].
      set (x := nth (Z.to_nat (Int_part vi)) arr 0) in *.
      set (y := nth (S (Z.to_nat (Int_part vi))) arr 0) in *.
      set (g := vi - IZR (Int_part vi)).
      assert (Hg : 0 <= g < 1) by (unfold g; lra).
      replace (x + (y - x) * g) with ((1 - g) * x + g * y) by ring.
      split; nra.
  - unfold Percentile.percentile.
    rewrite percentile_in_range by lra. cbv zeta. fold arr.
    replace ((INR (length arr) - 1) * (0 / 100)) with 0
      by (unfold Rdiv; ring).
    unfold Rleb. destruct (Rle_dec _ _) as [Habove|Hbelow].
    + assert (E : (length arr - 1 = 0)%nat).
      { apply INR_eq. rewrite <- Hn1. simpl.
        pose proof (pos_INR (length arr - 1)). lra. }
      rewrite E. f_equal.
      apply (is_min_unique_holder (concat a)); [|exact Hlo].
      now apply sort_first_is_min.
    + replace (Int_part 0) with 0%Z
        by (change 0 with (INR 0); now rewrite Int_part_INR).
      cbn [Z.to_nat]. f_equal.
      replace (0 - 0) with 0 by ring. rewrite Rmult_0_r, Rplus_0_r.
      apply (is_min_unique_holder (concat a)); [|exact Hlo].
      now apply sort_first_is_min.
  - unfold Percentile.percentile.
    rewrite percentile_in_range by lra. cbv zeta. fold arr.
    replace ((INR (length arr) - 1) * (100 / 100))
      with (INR (length arr) - 1) by field.
    rewrite Rleb_true by lra. f_equal.
    eapply is_max_unique; [|exact Hhi].
    now apply sort_last_is_max.
  - intros [Hq|Hq]; unfold Percentile.percentile.
    + now rewrite (Rltb_true q 0) by exact Hq.
    + rewrite (Rltb_true 100 q) by exact Hq. now rewrite orb_true_r.
Qed.

Lemma percentile_between_extremes_sample :
  is_min 90 (concat range_sample) /\ is_max 100 (concat range_sample) /\
  (0 <= 40 <= 100 ->
   exists level : R,
     Percentile.percentile range_sample 40 = Ok level /\ 90 <= level <= 100) /\
  Percentile.percentile range_sample 0 = Ok 90 /\
  Percentile.percentile range_sample 100 = Ok 100.
Proof.
  assert (Hlo : is_min 90 (concat range_sample)).
  { split; [now left|].
    intros x [<-|[<-|[<-|[<-|[]]]]]; lra. }
  assert (Hhi : is_max 100 (concat range_sample)).
  { split; [right; now left|].
    intros x [<-|[<-|[<-|[<-|[]]]]]; lra. }
  split; [exact Hlo|].
  split; [exact Hhi|].
  destruct (percentile_between_extremes range_sample 40 90 100 Hlo Hhi)
    as (H1 & H2 & H3 & _).
  split; [exact H1|]. split; [exact H2 | exact H3].
Defined.

Lemma sorted_permutation_eq (a : vector) :
  StronglySorted Rle a ->
  forall b, StronglySorted Rle b -> Permutation a b -> a = b.
Proof.
  induction 1 as [|x xs Hs IH Hall]; intros b Hb Hperm.
  - apply Permutation_nil in Hperm. now subst.
  - destruct b as [|y ys];
      [apply Permutation_sym, Permutation_nil in Hperm; discriminate|].
    apply StronglySorted_inv in Hb. destruct Hb as [Hys Hally].
    assert (Hxy : x = y).
    { apply Rle_antisym.
      - assert (Hin : In y (x :: xs))
          by (eapply Permutation_in;
              [apply Permutation_sym, Hperm | now left]).
        destruct Hin as [->|Hin]; [lra|].
        apply (proj1 (Forall_forall _ _) Hall). exact Hin.
      - assert (Hin : In x (y :: ys))
          by (eapply Permutation_in; [apply Hperm | now left]).
        destruct Hin as [->|Hin]; [lra|].
        apply (proj1 (Forall_forall _ _) Hally). exact Hin. }
    subst y. f_equal. apply IH; [exact Hys|].
    eapply Permutation_cons_inv, Hperm.
Qed.

Lemma insert_permutation (x : R) (a : vector) :
  Permutation (x :: a) (Percentile.insert x a).
Proof.
  induction a as [|y ys IH]; simpl; [apply Permutation_refl|].
  destruct (Rleb x y); [apply Permutation_refl|].
  eapply Permutation_trans; [apply perm_swap|].
  now apply perm_skip.
Qed.

Lemma sort_permutation (a : vector) : Permutation a (Percentile.sort a).
Proof.
  induction a as [|y ys IH]; simpl; [apply Permutation_refl|].
  eapply Permutation_trans; [|apply insert_permutation].
  now apply perm_skip.
Qed.

(** X16. The percentile depends only on which prices the matrix holds, not
    on the simulation or step each belongs to: two matrices whose entries are
    a rearrangement of one another have the same percentiles. *)
Theorem percentile_rearrangement (a b : matrix) (q : R) :
  Permutation (concat a) (concat b) ->
  Percentile.percentile a q = Percentile.percentile b q.
Proof.
  intros Hperm.
  assert (E : Percentile.sort (concat a) = Percentile.sort (concat b)).
  { apply sorted_permutation_eq; try apply sort_sorted.
    eapply Permutation_trans; [apply Permutation_sym, sort_permutation|].
    eapply Permutation_trans; [exact Hperm | apply sort_permutation]. }
  unfold Percentile.percentile. now rewrite E.
Qed.

(** The sample matrix and its transpose. *)
Lemma percentile_rearrangement_sample :
  Permutation (concat range_sample) (concat [[90; 96]; [100; 97]]) /\
  Percentile.percentile range_sample 40
  = Percentile.percentile [[90; 96]; [100; 97]] 40.
Proof.
  assert (Hperm : Permutation (concat range_sample)
                    (concat [[90; 96]; [100; 97]])).
  { unfold range_sample. cbn [concat app].
    apply perm_skip. apply perm_swap. }
  split; [exact Hperm|].
  apply (percentile_rearrangement range_sample [[90; 96]; [100; 97]] 40 Hperm).
Defined.

(** ** Basket option *)

(** X17. On an [N] by [M] path matrix the barrier price is computed, and the
    basket of the Asian call price and the barrier price is at least 0 and
    lies between the smaller and the larger of the two. *)
Theorem Basket_Option_price_between (p : SimulationParameters)
  (Barrier_price : R) (m : nat) (prices : matrix) :
  (1 <= simulations p)%Z -> (1 <= m)%nat ->
  shape (Z.to_nat (simulations p)) m prices ->
  exists barrier : R,
    Barrier.Barrier_option_price p Barrier_price prices = Ok barrier /\
    0 <= Basket_Option_price
           (Asian.Asian_Option_call_price p (Asian.payoffs p prices)) barrier /\
    Rmin (Asian.Asian_Option_call_price p (Asian.payoffs p prices)) barrier
    <= Basket_Option_price
         (Asian.Asian_Option_call_price p (Asian.payoffs p prices)) barrier
    <= Rmax (Asian.Asian_Option_call_price p (Asian.payoffs p prices)) barrier.
Proof.
  intros HN Hm Hshape.
  pose proof (shape_nonempty _ _ _ Hm Hshape) as Hne.
  assert (HNpos : 0 < IZR (simulations p)) by (apply IZR_lt; lia).
  pose proof (discount_pos p) as Hd.
  assert (Hasian : 0 <= Asian.Asian_Option_call_price p (Asian.payoffs p prices)).
  { unfold Asian.Asian_Option_call_price, Np.mean.
    rewrite Asian_payoffs_map.
    apply Rmult_le_pos; [|lra].
    unfold Rdiv. apply Rmult_le_pos.
    - apply sum_map_nonneg. intros; apply Rmax_0_nonneg.
    - destruct (length _) as [|k] eqn:E.
      + simpl. rewrite Rinv_0. lra.
      + apply Rlt_le, Rinv_0_lt_compat, lt_0_INR. lia. }
  assert (Hbarrier : 0 <= Np.sum (map (barrier_contribution Barrier_price) prices)
                          / IZR (simulations p) * discount p).
  { replace 0 with (0 / IZR (simulations p) * discount p)
      by (unfold Rdiv; ring).
    apply scale_le; try assumption.
    apply sum_map_nonneg. intros row _. apply barrier_contribution_bounds. }
  eexists. split; [apply Barrier_option_price_ok; [lia | exact Hne]|].
  set (x := Asian.Asian_Option_call_price p (Asian.payoffs p prices)) in *.
  set (y := Np.sum (map (barrier_contribution Barrier_price) prices)
            / IZR (simulations p) * discount p) in *.
  unfold Basket_Option_price, Rmin, Rmax.
  destruct (Rle_dec x y); repeat split; lra.
Qed.

Lemma Basket_Option_price_between_sample :
  (1 <= simulations sample_parameters)%Z /\ (1 <= 3)%nat /\
  shape (Z.to_nat (simulations sample_parameters)) 3
        [[100; 110; 120]; [100; 90; 80]] /\
  exists barrier : R,
    Barrier.Barrier_option_price sample_parameters 99
      [[100; 110; 120]; [100; 90; 80]] = Ok barrier /\
    0 <= Basket_Option_price
           (Asian.Asian_Option_call_price sample_parameters
              (Asian.payoffs sample_parameters
                 [[100; 110; 120]; [100; 90; 80]])) barrier.
Proof.
  assert (Hshape : shape (Z.to_nat (simulations sample_parameters)) 3
                     [[100; 110; 120]; [100; 90; 80]])
    by (split; [reflexivity | repeat constructor]).
  split; [simpl; lia|].
  split; [lia|].
  split; [exact Hshape|].
  destruct (Basket_Option_price_between sample_parameters 99 3
              [[100; 110; 120]; [100; 90; 80]]) as [b [Hb [H0 _]]].
  - simpl; lia.
  - lia.
  - exact Hshape.
  - exists b. split; [exact Hb | exact H0].
Defined.

(** ** Binary64: where the cells leave the real numbers *)

(** C2 on the code.  With the barrier at 99, in binary64: the row that stays
    at 120 for 300 steps, falls to 95 and ends at 100 has a zero in its
    series, yet its product is nan (infinity times 0), the test [!= 0] keeps
    it, and it adds its final payoff 1 to the total; the row that stays at
    [99 + 2^-10], always above the barrier, has a product that underflows to
    0, is dropped, and adds nothing. *)
Lemma Barrier_rows_binary64_overflow_underflow :
  existsb (fun y => PrimFloat.eqb y 0)
          (nth 0 (B64.payoffs 99 [B64.high_then_dip]) []) = true /\
  B64.Barrier_rows (B64.payoffs 99 [B64.high_then_dip]) = [0%nat] /\
  B64.Barrier_total (B64.payoffs 99 [B64.high_then_dip]) = Ok 1%float /\
  forallb (fun x => PrimFloat.ltb 99 x) B64.just_above = true /\
  B64.Barrier_rows (B64.payoffs 99 [B64.just_above]) = [] /\
  B64.Barrier_total (B64.payoffs 99 [B64.just_above]) = Ok 0%float.
Proof. vm_compute. repeat split. Qed.


(** ** Positive and finite prices within the range of the exponential *)







